(** * VarManager: the KEY=VALUE environment-variable editor

    A shallow embedding of [src/VarManager.tsx]: the parser
    ([parseAndPopulate]), the key validator ([handleVariableChange]), the row
    operations and the output serialiser ([getOutputText]), followed by the
    properties of the editor that the specification states.

    Modelling conventions.
    - A JavaScript string is its sequence of UTF-16 code units, a [list N].
      [lit] turns a literal of the source into that representation.
    - An object used as a dictionary of error messages ([rowErrors]) is a
      [gmap]; the object whose enumeration order is observed ([deduped]) is an
      association list kept in property-creation order, enumerated by
      [Object_entries] the way the language orders own properties.
    - React state is one record; every setter is a record update and a
      handler is the composition of its setters. The effect that re-parses is
      a transition of its own ([effect_reparse]).
    - [uuidv4] is an arbitrary generator: the [n]-th identifier drawn is
      [uuidv4 n], and the state counts the draws made so far. *)

From Stdlib Require Import NArith String Ascii DecimalString DecimalNat.
From stdpp Require Import base list gmap sorting.

Local Open Scope N_scope.

(** ** Strings *)

Abbreviation str := (list N).

Definition lit (s : string) : str :=
  N_of_ascii <$> list_ascii_of_string s.

(** [`${n}`] for a line number: its decimal digits. *)
Definition Number_toString (n : nat) : str :=
  lit (NilEmpty.string_of_uint (Nat.to_uint n)).

(** Truthiness of a string: every string but the empty one. *)
Definition truthy (s : str) : bool :=
  match s with [] => false | _ :: _ => true end.

(** WhiteSpace and LineTerminator code units, the ones [trim] strips. *)
Definition isWhiteSpace (c : N) : bool :=
  (c =? 9) || (c =? 10) || (c =? 11) || (c =? 12) || (c =? 13) ||
  (c =? 32) || (c =? 160) || (c =? 0x1680) ||
  ((0x2000 <=? c) && (c <=? 0x200A)) ||
  (c =? 0x2028) || (c =? 0x2029) || (c =? 0x202F) || (c =? 0x205F) ||
  (c =? 0x3000) || (c =? 0xFEFF).

Fixpoint trimStart (s : str) : str :=
  match s with
  | [] => []
  | c :: s' => if isWhiteSpace c then trimStart s' else s
  end.

Definition trimEnd (s : str) : str := reverse (trimStart (reverse s)).

Definition trim (s : str) : str := trimStart (trimEnd s).

(** [s.split(sep)] for a one-unit separator; never the empty array. *)
Fixpoint split (sep : N) (s : str) : list str :=
  match s with
  | [] => [[]]
  | c :: s' =>
      if c =? sep then [] :: split sep s'
      else match split sep s' with
           | [] => [[c]]
           | l :: ls => (c :: l) :: ls
           end
  end.

(** [s.indexOf(c)]; [None] stands for the result [-1]. *)
Fixpoint indexOf (c : N) (s : str) : option nat :=
  match s with
  | [] => None
  | x :: s' => if x =? c then Some 0%nat else S <$> indexOf c s'
  end.

Fixpoint startsWith (p s : str) : bool :=
  match p, s with
  | [], _ => true
  | _ :: _, [] => false
  | a :: p', b :: s' => (a =? b) && startsWith p' s'
  end.

(** [s.substring(a)] and [s.substring(0, b)] for in-range indices. *)
Definition substring_from (a : nat) (s : str) : str := drop a s.
Definition substring_to (b : nat) (s : str) : str := take b s.

(** [l.join(sep)] *)
Fixpoint join (sep : str) (l : list str) : str :=
  match l with
  | [] => []
  | [x] => x
  | x :: l' => x ++ sep ++ join sep l'
  end.

(** [KEY_REGEX = /^[A-Za-z0-9_]+$/] *)
Definition isKeyChar (c : N) : bool :=
  ((65 <=? c) && (c <=? 90)) || ((97 <=? c) && (c <=? 122)) ||
  ((48 <=? c) && (c <=? 57)) || (c =? 95).

Definition KEY_REGEX_test (v : str) : bool :=
  truthy v && forallb isKeyChar v.

Definition INITIAL_ROW_COUNT : nat := 20.

(** ** Objects enumerated in own-property order *)

Definition isDigit (c : N) : bool := (48 <=? c) && (c <=? 57).

(** The array index a property name denotes, when it is the canonical
    decimal form of an integer below [2^32 - 1]. *)
Definition array_index (k : str) : option N :=
  match k with
  | [] => None
  | c :: rest =>
      if forallb isDigit k && (negb (c =? 48) || negb (truthy rest)) then
        let n := foldl (fun a d => 10 * a + (d - 48)) 0 k in
        if n <=? 4294967294 then Some n else None
      else None
  end.

Definition has_key {V} (k : str) (o : list (str * V)) : bool :=
  existsb (fun e => bool_decide (e.1 = k)) o.

(** [{ ...acc, [key]: value }]: the properties of [acc] in their order, the
    property [key] overwritten where it stands or created last. *)
Definition spread_set {V} (acc : list (str * V)) (key : str) (value : V)
  : list (str * V) :=
  if has_key key acc then
    (fun e => if bool_decide (e.1 = key) then (key, value) else e) <$> acc
  else acc ++ [(key, value)].

Definition index_of_entry {V} (e : str * V) : N :=
  default 0 (array_index e.1).

Definition index_le {V} (a b : str * V) : Prop :=
  index_of_entry a <= index_of_entry b.

#[global] Instance index_le_dec {V} (a b : str * V) : Decision (index_le a b).
Proof. unfold index_le. apply _. Defined.

(** [Object.entries(o)]: array-index names first, in ascending numeric order,
    then the other names in creation order. *)
Definition Object_entries {V} (o : list (str * V)) : list (str * V) :=
  merge_sort index_le (filter (fun e => is_Some (array_index e.1)) o)
  ++ filter (fun e => ¬ is_Some (array_index e.1)) o.


(** ** Rows and editor state *)

(** [EnvironmentVariable] is a single row in the table. *)
Record EnvironmentVariable := mkVar {
  ev_id : str;
  ev_key : str;
  ev_value : str
}.

#[global] Instance EnvironmentVariable_eq_dec : EqDecision EnvironmentVariable.
Proof. solve_decision. Defined.

(** The [useState] cells of the component, and the number of identifiers
    drawn from [uuidv4] so far. *)
Record EditorState := mkState {
  rawText : str;
  variables : list EnvironmentVariable;
  error : option str;
  status : option str;
  rowErrors : gmap str str;
  uuid_drawn : nat
}.

Definition setRawText (v : str) (s : EditorState) : EditorState :=
  mkState v (variables s) (error s) (status s) (rowErrors s) (uuid_drawn s).

Definition setVariables (f : list EnvironmentVariable -> list EnvironmentVariable)
  (s : EditorState) : EditorState :=
  mkState (rawText s) (f (variables s)) (error s) (status s) (rowErrors s)
    (uuid_drawn s).

Definition setError (e : option str) (s : EditorState) : EditorState :=
  mkState (rawText s) (variables s) e (status s) (rowErrors s) (uuid_drawn s).

Definition setStatus (st : option str) (s : EditorState) : EditorState :=
  mkState (rawText s) (variables s) (error s) st (rowErrors s) (uuid_drawn s).

Definition setRowErrors (f : gmap str str -> gmap str str) (s : EditorState)
  : EditorState :=
  mkState (rawText s) (variables s) (error s) (status s) (f (rowErrors s))
    (uuid_drawn s).

Definition set_drawn (n : nat) (s : EditorState) : EditorState :=
  mkState (rawText s) (variables s) (error s) (status s) (rowErrors s) n.

(** The two editable fields of a row. *)
Inductive Field := FKey | FValue.

Definition set_field (field : Field) (v : str) (row : EnvironmentVariable)
  : EnvironmentVariable :=
  match field with
  | FKey => mkVar (ev_id row) v (ev_value row)
  | FValue => mkVar (ev_id row) (ev_key row) v
  end.

Definition get_field (field : Field) (row : EnvironmentVariable) : str :=
  match field with FKey => ev_key row | FValue => ev_value row end.

(** An accumulated pair of the parser, with the line it was read on. *)
Record ParsedItem := mkItem {
  pi_key : str;
  pi_value : str;
  pi_line : nat
}.

(** What a slot of [keyCounts] can hold when the duplicate scan reads it. *)
Inductive CountSlot := CountNum (n : nat) | CountLines (ls : list nat).

(** [Array.isArray(keyCounts[k])] *)
Definition Array_isArray (c : CountSlot) : bool :=
  match c with CountNum _ => false | CountLines _ => true end.

(** [occ > 1]: a number is compared as it is; an array is first turned into
    the number its elements joined with commas denote, if any. *)
Definition count_gt1 (c : CountSlot) : bool :=
  match c with
  | CountNum n => Nat.ltb 1 n
  | CountLines [l] => Nat.ltb 1 l
  | CountLines _ => false
  end.

Definition dquote : str := [34].
Definition newline : str := [10].

Definition warn_no_equals (lineNum : nat) (trimmedLine : str) : str :=
  lit "Warning: Line " ++ Number_toString lineNum ++
  lit " does not contain '='. Input: " ++ dquote ++ trimmedLine ++ dquote ++
  lit ". Skipping.".

Definition warn_empty_key (lineNum : nat) (trimmedLine : str) : str :=
  lit "Warning: Empty key on line " ++ Number_toString lineNum ++
  lit ". Input: " ++ dquote ++ trimmedLine ++ dquote ++ lit ". Skipping.".

(** The message of the duplicate scan; its list of lines exists only for a
    slot that is an array, the one case in which the message is built. *)
Definition warn_duplicate (k : str) (c : CountSlot) : str :=
  lit "Duplicate key " ++ dquote ++ k ++ dquote ++ lit " on lines " ++
  match c with
  | CountNum _ => []
  | CountLines ls => join (lit ", ") (Number_toString <$> ls)
  end.

(** [l.forEach((x, index) => ...)] with the loop state passed along. *)
Fixpoint forEach {A St} (f : St -> A -> nat -> St) (l : list A) (index : nat)
  (acc : St) : St :=
  match l with
  | [] => acc
  | x :: l' => forEach f l' (S index) (f acc x index)
  end.

(** ** The parser *)

(** The body of the loop over the lines: [acc] holds [parsedItems] and
    [parseWarningMessages]. *)
Definition scan_line (acc : list ParsedItem * list str) (line : str)
  (index : nat) : list ParsedItem * list str :=
  let '(parsedItems, parseWarningMessages) := acc in
  let lineNum := (index + 1)%nat in
  let trimmedLine := trim line in
  if negb (truthy trimmedLine) || startsWith (lit "#") trimmedLine then acc
  else
    match indexOf 61 trimmedLine with
    | None =>
        (parsedItems,
         parseWarningMessages ++ [warn_no_equals lineNum trimmedLine])
    | Some eqIndex =>
        let key := trim (substring_to eqIndex trimmedLine) in
        let value := trim (substring_from (eqIndex + 1) trimmedLine) in
        if truthy key then
          (parsedItems ++ [mkItem key value lineNum], parseWarningMessages)
        else
          (parsedItems,
           parseWarningMessages ++ [warn_empty_key (index + 1) trimmedLine])
    end.

Definition scan (raw : str) : list ParsedItem * list str :=
  forEach scan_line (split 10 raw) 0 ([], []).

(** The duplicate scan over [Object.entries(keyCounts)]. *)
Definition detect_duplicates (keyCounts : list (str * CountSlot))
  (parseWarningMessages : list str) : list str :=
  foldl (fun w e =>
           if count_gt1 e.2 && Array_isArray e.2
           then w ++ [warn_duplicate e.1 e.2] else w)
    parseWarningMessages (Object_entries keyCounts).

(** [keyCounts] is created empty and nothing is ever stored in it. *)
Definition keyCounts : list (str * CountSlot) := [].

Definition parsedItems (raw : str) : list ParsedItem := (scan raw).1.

Definition parseWarningMessages (raw : str) : list str :=
  detect_duplicates keyCounts (scan raw).2.

(** [parsedItems.reduce((acc, {key, value}) => ({...acc, [key]: value}), {})] *)
Definition dedupe (items : list ParsedItem) : list (str * str) :=
  foldl (fun acc it => spread_set acc (pi_key it) (pi_value it)) [] items.

Definition entries_of (raw : str) : list (str * str) :=
  Object_entries (dedupe (parsedItems raw)).

Section Editor.

(** The identifier generator: [uuidv4 n] is the [n]-th identifier drawn. *)
Variable uuidv4 : nat -> str.

Definition createEmptyVariable (n : nat) : EnvironmentVariable * nat :=
  (mkVar (uuidv4 n) [] [], S n).

(** [Array.from({ length: len }, createEmptyVariable)] *)
Fixpoint Array_from (len n : nat) : list EnvironmentVariable * nat :=
  match len with
  | O => ([], n)
  | S len' =>
      let '(row, n1) := createEmptyVariable n in
      let '(rows, n2) := Array_from len' n1 in
      (row :: rows, n2)
  end.

Definition initialState : EditorState :=
  let '(rows, n) := Array_from INITIAL_ROW_COUNT 0 in
  mkState [] rows None None ∅ n.

(** One turn of [for (let i = 0; i < rowCount; i++)]. *)
Definition push_row (entries : list (str * str))
  (acc : list EnvironmentVariable * nat) (i : nat)
  : list EnvironmentVariable * nat :=
  let '(newVars, n) := acc in
  if Nat.ltb i (length entries) then
    let '(k, v) := nth i entries ([], []) in
    (newVars ++ [mkVar (uuidv4 n) k v], S n)
  else
    let '(row, n') := createEmptyVariable n in
    (newVars ++ [row], n').

Definition build_rows (entries : list (str * str)) (n : nat)
  : list EnvironmentVariable * nat :=
  let rowCount := Nat.max INITIAL_ROW_COUNT (length entries) in
  foldl (push_row entries) ([], n) (seq 0 rowCount).

Definition parseAndPopulate (s : EditorState) : EditorState :=
  let s := setError None s in
  let s := setStatus None s in
  let warnings := parseWarningMessages (rawText s) in
  let s :=
    if Nat.ltb 0 (length warnings) then
      setError (Some (join newline warnings)) s
    else
      setStatus (Some (lit "Parsed successfully!")) (setError None s) in
  let '(newVars, n) := build_rows (entries_of (rawText s)) (uuid_drawn s) in
  set_drawn n (setVariables (fun _ => newVars) s).

(** ** The validator and the row operations *)

Definition handleTextChange (v : str) (s : EditorState) : EditorState :=
  setRawText v s.

Definition handleVariableChange (id : str) (field : Field) (v : str)
  (s : EditorState) : EditorState :=
  let s :=
    setVariables
      (fmap (fun row =>
               if bool_decide (ev_id row = id) then set_field field v row
               else row)) s in
  match field with
  | FKey =>
      if negb (truthy (trim v)) then
        setRowErrors (fun e => <[id := lit "Key is required."]> e) s
      else if negb (KEY_REGEX_test v) then
        setRowErrors
          (fun e => <[id := lit "Only letters, digits, and underscore allowed."]> e)
          s
      else
        setRowErrors (fun e => <[id := lit "Error in " ++ id]> e) s
  | FValue => s
  end.

Definition addVariableRow (s : EditorState) : EditorState :=
  let '(row, n) := createEmptyVariable (uuid_drawn s) in
  set_drawn n (setVariables (fun pv => pv ++ [row]) s).

Definition deleteVariableRow (id : str) (s : EditorState) : EditorState :=
  setVariables (List.filter (fun r => negb (bool_decide (ev_id r = id)))) s.

Definition clearAll (s : EditorState) : EditorState :=
  let '(rows, n) := Array_from INITIAL_ROW_COUNT (uuid_drawn s) in
  let s := set_drawn n (setVariables (fun _ => rows) s) in
  let s := setRowErrors (fun _ => ∅) s in
  let s := setError None s in
  let s := setRawText [] s in
  setStatus None s.

Definition clearText (s : EditorState) : EditorState := setRawText [] s.

(** [!rowErrors[id]]: no entry, or an entry that is the empty string. *)
Definition no_row_error (e : gmap str str) (id : str) : bool :=
  match e !! id with
  | None => true
  | Some msg => negb (truthy msg)
  end.

Definition getOutputText (s : EditorState) : str :=
  join newline
    ((fun r => ev_key r ++ lit "=" ++ ev_value r) <$>
     List.filter
       (fun r => truthy (trim (ev_key r)) && no_row_error (rowErrors s) (ev_id r))
       (variables s)).

(** The effect on [rawText] and [parseAndPopulate], run after a render:
    re-parse unless [rawText] is empty. *)
Definition effect_reparse (s : EditorState) : EditorState :=
  if truthy (rawText s) then parseAndPopulate s else s.

(** The deferred action of the status effect. *)
Definition status_timeout (s : EditorState) : EditorState := setStatus None s.

(** ** Events and reachable states *)

Inductive Event :=
| TextChange (v : str)
| VariableChange (id : str) (field : Field) (v : str)
| AddRow
| DeleteRow (id : str)
| ClearAll
| ClearText
| Effect
| StatusTimeout.

Definition handle (e : Event) (s : EditorState) : EditorState :=
  match e with
  | TextChange v => handleTextChange v s
  | VariableChange id field v => handleVariableChange id field v s
  | AddRow => addVariableRow s
  | DeleteRow id => deleteVariableRow id s
  | ClearAll => clearAll s
  | ClearText => clearText s
  | Effect => effect_reparse s
  | StatusTimeout => status_timeout s
  end.

Definition run (events : list Event) (s : EditorState) : EditorState :=
  foldl (fun s e => handle e s) s events.

(** The states of the mounted component: the initial one, and the ones a
    handler, the re-parse effect or the status timer leads to. *)
Inductive reachable : EditorState -> Prop :=
| reachable_init : reachable initialState
| reachable_step e s : reachable s -> reachable (handle e s).

End Editor.

Local Close Scope N_scope.

(** ** Definitions used to state the properties *)

(** The row pushed at turn [i] of the loop, [n] identifiers having been
    drawn before the loop. *)
Definition row_at (uuidv4 : nat -> str) (entries : list (str * str))
  (n i : nat) : EnvironmentVariable :=
  match entries !! i with
  | Some (k, v) => mkVar (uuidv4 (n + i)) k v
  | None => mkVar (uuidv4 (n + i)) [] []
  end.

Definition row_fields (r : EnvironmentVariable) : str * str :=
  (ev_key r, ev_value r).

(** The field that [field] is not. *)
Definition other_field (field : Field) : Field :=
  match field with FKey => FValue | FValue => FKey end.

(** The row at every position after an edit of [field] of the row [id]:
    rows of another id are kept; the row [id] keeps its id and its other
    field and has [v] in the edited one. *)
Definition edited (id : str) (field : Field) (v : str)
  (old new : EnvironmentVariable) : Prop :=
  if decide (ev_id old = id) then
    ev_id new = id ∧ get_field field new = v ∧
    get_field (other_field field) new = get_field (other_field field) old
  else new = old.

(** A state with one filled row, to run the handlers on. *)
Definition one_row_state : EditorState :=
  mkState [] [mkVar (lit "r1") (lit "A") (lit "1")] None None ∅ 1.

(** A concrete generator and a state holding a pasted text, to run the
    editor on. *)
Definition counter_uuid (n : nat) : str := lit "id-" ++ Number_toString n.

Definition pasted (raw : str) : EditorState :=
  handleTextChange raw (initialState counter_uuid).

Definition text_onlykey_foo : str := lit "onlykey" ++ newline ++ lit "FOO=bar".

Definition text_foo_baz : str :=
  lit "FOO=bar" ++ newline ++ lit "#comment" ++ newline ++ lit "BAZ=qux" ++
  newline.

(** [len] blank rows with the ids drawn from [n] on. *)
Definition blank_rows (uuidv4 : nat -> str) (n len : nat)
  : list EnvironmentVariable :=
  (fun i => mkVar (uuidv4 i) [] []) <$> seq n len.

(** The pair a line yields, in the words of the specification: trim the
    line; nothing if it is blank or a comment; the key is the trimmed text
    before the first '=', the value the trimmed text after it; nothing when
    there is no '=' or the key is empty. *)
Definition line_pair (line : str) : option (str * str) :=
  let t := trim line in
  if truthy t && negb (startsWith (lit "#") t) then
    match indexOf 61%N t with
    | Some e =>
        if truthy (trim (take e t))
        then Some (trim (take e t), trim (drop (e + 1) t))
        else None
    | None => None
    end
  else None.

(** The warning a line yields, when it is neither blank nor a comment and
    has no pair. [index] is the 0-based position of the line. *)
Definition line_warning (index : nat) (line : str) : option str :=
  let t := trim line in
  if truthy t && negb (startsWith (lit "#") t) then
    match indexOf 61%N t with
    | Some e =>
        if truthy (trim (take e t)) then None
        else Some (warn_empty_key (index + 1) t)
    | None => Some (warn_no_equals (index + 1) t)
    end
  else None.

Definition line_items (index : nat) (line : str) : list ParsedItem :=
  match line_pair line with
  | Some (k, v) => [mkItem k v (index + 1)]
  | None => []
  end.

Fixpoint items_from (index : nat) (lines : list str) : list ParsedItem :=
  match lines with
  | [] => []
  | line :: lines' => line_items index line ++ items_from (S index) lines'
  end.

Fixpoint warnings_from (index : nat) (lines : list str) : list str :=
  match lines with
  | [] => []
  | line :: lines' =>
      option_list (line_warning index line) ++ warnings_from (S index) lines'
  end.

(** Every recorded row error is a non-empty message. *)
Definition rowErrors_nonempty (e : gmap str str) : Prop :=
  forall id msg, e !! id = Some msg -> msg ≠ [].

(** The output in the words of the specification: the rows whose key trims
    to non-empty and whose id has no entry in [rowErrors], each written
    [<key>=<value>], joined with newlines. *)
Definition output_rows (s : EditorState) : list EnvironmentVariable :=
  filter (fun r => trim (ev_key r) ≠ [] ∧ rowErrors s !! ev_id r = None)
    (variables s).

Definition output_line (r : EnvironmentVariable) : str :=
  ev_key r ++ lit "=" ++ ev_value r.

(** The value of the last item of [items] with key [k]. *)
Definition last_def (k : str) (items : list ParsedItem) : option str :=
  foldl (fun o it => if decide (pi_key it = k) then Some (pi_value it) else o)
    None items.

(** Line [i] of [lines] yields the pair [(k, v)] and no later line yields a
    pair with key [k]. *)
Definition last_definition (lines : list str) (k v : str) (i : nat) : Prop :=
  ∃ line, lines !! i = Some line ∧ line_pair line = Some (k, v) ∧
          forall j line' v', i < j -> lines !! j = Some line' ->
                             line_pair line' ≠ Some (k, v').

(** The number of unique keys among the parsed items. *)
Definition unique_keys (raw : str) : nat :=
  size (list_to_set (pi_key <$> parsedItems raw) : gset str).

(** Twenty-one keys [K1 .. K21], each on its line. *)
Definition text_21_keys : str :=
  join newline
    ((fun i => lit "K" ++ Number_toString i ++ lit "=" ++ Number_toString i)
       <$> seq 1 21).

Definition text_a1_a2 : str := lit "A=1" ++ newline ++ lit "A=2".

Definition text_spaced : str := lit "FOO= bar " ++ newline ++ lit "BAZ=qux".

(** ** The copy action and further notions *)

(** What [copyToClipboard] hands to the outside: a blocking notice, or a
    text for [navigator.clipboard.writeText]. *)
Inductive ClipboardStep :=
| Alert (msg : str)
| WriteText (out : str).

Definition copyToClipboard (s : EditorState) : ClipboardStep :=
  let out := getOutputText s in
  if negb (truthy out) then Alert (lit "Nothing valid to copy.")
  else WriteText out.

(** The notice when the write settles: [then] on success, [catch] on
    failure. *)
Definition copy_settled (ok : bool) : str :=
  if ok then lit "Copied!" else lit "Copy failed.".

(** The test of the filter of [getOutputText] on one row. *)
Definition in_output (s : EditorState) (r : EnvironmentVariable) : bool :=
  truthy (trim (ev_key r)) && no_row_error (rowErrors s) (ev_id r).

(** The lines the loop of the parser skips. *)
Definition blank_or_comment (line : str) : bool :=
  negb (truthy (trim line)) || startsWith (lit "#") (trim line).

(** The events whose handler does not call [setRawText]. *)
Definition keeps_text (e : Event) : bool :=
  match e with
  | TextChange _ | ClearAll | ClearText => false
  | _ => true
  end.

(** A key as the parser can accept it: not empty, no whitespace at either
    end, no '=' inside and no '#' in front. *)
Definition parsable_key (K : str) : Prop :=
  K ≠ [] ∧ trim K = K ∧ (61%N ∉ K) ∧ startsWith (lit "#") K = false.

(** * Properties *)

(** ** Setters and identifier draws *)

Lemma Array_from_spec uuidv4 len n :
  Array_from uuidv4 len n =
  ((fun i => mkVar (uuidv4 i) [] []) <$> seq n len, n + len).
Proof.
  revert n. induction len as [|len IH]; intros n; simpl.
  - f_equal. lia.
  - rewrite IH. simpl. do 2 f_equal. lia.
Qed.

Lemma truthy_true (s : str) : truthy s = true <-> s ≠ [].
Proof. destruct s; simpl; split; intros; congruence. Qed.

Lemma truthy_false (s : str) : truthy s = false <-> s = [].
Proof. destruct s; simpl; split; intros; congruence. Qed.

Lemma KEY_REGEX_test_true (v : str) :
  KEY_REGEX_test v = true <-> v ≠ [] ∧ Forall (fun c => isKeyChar c = true) v.
Proof.
  unfold KEY_REGEX_test. rewrite andb_true_iff, truthy_true, forallb_forall.
  rewrite Forall_forall. setoid_rewrite list_elem_of_In. reflexivity.
Qed.

Lemma KEY_REGEX_test_false (v : str) :
  v ≠ [] ->
  KEY_REGEX_test v = false <-> Exists (fun c => isKeyChar c = false) v.
Proof.
  intros Hv. unfold KEY_REGEX_test.
  apply truthy_true in Hv. rewrite Hv. simpl. clear Hv.
  induction v as [|c v IH]; simpl.
  - split; [discriminate | intros H; inversion H].
  - rewrite Exists_cons, <- IH. destruct (isKeyChar c); simpl; intuition congruence.
Qed.

(** ** The key validator *)

Lemma handleVariableChange_variables id field v s :
  variables (handleVariableChange id field v s) =
  (fun row => if bool_decide (ev_id row = id) then set_field field v row else row)
    <$> variables s.
Proof.
  unfold handleVariableChange. destruct field; simpl;
    repeat (match goal with |- context [if ?b then _ else _] => destruct b end);
    reflexivity.
Qed.

(** C1. Editing a key field records "Key is required." when the new key trims
    to empty, "Only letters, digits, and underscore allowed." when it does not
    but holds a character outside [A-Za-z0-9_], and the non-empty placeholder
    "Error in <id>" otherwise; the errors of other rows are kept. Whatever the
    outcome and the field, the edited field of the row is updated in
    [variables], and editing a value field leaves [rowErrors] as it was. *)
Theorem handleVariableChange_validates (id v : str) (s : EditorState) :
  let s' := handleVariableChange id FKey v s in
  (trim v = [] -> rowErrors s' !! id = Some (lit "Key is required.")) ∧
  (trim v ≠ [] -> Exists (fun c => isKeyChar c = false) v ->
   rowErrors s' !! id =
   Some (lit "Only letters, digits, and underscore allowed.")) ∧
  (trim v ≠ [] -> Forall (fun c => isKeyChar c = true) v ->
   rowErrors s' !! id = Some (lit "Error in " ++ id) ∧
   lit "Error in " ++ id ≠ []) ∧
  (forall id', id' ≠ id -> rowErrors s' !! id' = rowErrors s !! id') ∧
  (forall field,
     Forall2 (edited id field v) (variables s)
       (variables (handleVariableChange id field v s))) ∧
  rowErrors (handleVariableChange id FValue v s) = rowErrors s.
Proof.
  cbn zeta.
  assert (Hne : trim v ≠ [] -> v ≠ []).
  { intros H ->. apply H. reflexivity. }
  repeat split.
  - intros Ht. unfold handleVariableChange. rewrite Ht. simpl.
    apply lookup_insert_eq.
  - intros Ht Hex. unfold handleVariableChange.
    apply truthy_true in Ht as Ht'. rewrite Ht'. simpl.
    apply (KEY_REGEX_test_false v (Hne Ht)) in Hex. rewrite Hex. simpl.
    apply lookup_insert_eq.
  - unfold handleVariableChange.
    apply truthy_true in H as Ht'. rewrite Ht'. simpl.
    assert (KEY_REGEX_test v = true) as ->
      by (apply KEY_REGEX_test_true; auto).
    simpl. apply lookup_insert_eq.
  - discriminate.
  - intros id' Hid. unfold handleVariableChange.
    destruct (truthy (trim v)); simpl;
      [destruct (KEY_REGEX_test v); simpl|];
      apply lookup_insert_ne; congruence.
  - intros field. rewrite handleVariableChange_variables.
    apply Forall2_fmap_r, Forall_Forall2_diag, Forall_forall.
    intros row _. unfold edited, compose.
    destruct (decide (ev_id row = id)) as [Heq|Hneq]; cbv beta.
    + rewrite bool_decide_eq_true_2 by assumption.
      destruct field; simpl; auto.
    + rewrite bool_decide_eq_false_2 by assumption. reflexivity.
Qed.

Lemma handleVariableChange_validates_witness :
  rowErrors (handleVariableChange (lit "r1") FKey (lit "  ") one_row_state)
    !! lit "r1" = Some (lit "Key is required.") ∧
  rowErrors (handleVariableChange (lit "r1") FKey (lit "A-B") one_row_state)
    !! lit "r1" = Some (lit "Only letters, digits, and underscore allowed.") ∧
  rowErrors (handleVariableChange (lit "r1") FKey (lit "A_B") one_row_state)
    !! lit "r1" = Some (lit "Error in r1") ∧
  rowErrors (handleVariableChange (lit "r1") FKey (lit "A_B") one_row_state)
    !! lit "r2" = None.
Proof.
  split; [|split; [|split]].
  - apply (handleVariableChange_validates (lit "r1") (lit "  ") one_row_state).
    reflexivity.
  - apply (handleVariableChange_validates (lit "r1") (lit "A-B") one_row_state).
    + discriminate.
    + apply Exists_cons_tl, Exists_cons_hd. reflexivity.
  - apply (handleVariableChange_validates (lit "r1") (lit "A_B") one_row_state).
    + discriminate.
    + repeat constructor.
  - pose proof
      (handleVariableChange_validates (lit "r1") (lit "A_B") one_row_state)
      as (_ & _ & _ & H & _).
    rewrite (H (lit "r2")); [reflexivity | discriminate].
Defined.

(** ** Banners after a parse *)

Lemma parseAndPopulate_unfold uuidv4 s :
  parseAndPopulate uuidv4 s =
  mkState (rawText s)
    (build_rows uuidv4 (entries_of (rawText s)) (uuid_drawn s)).1
    (match parseWarningMessages (rawText s) with
     | [] => None
     | w => Some (join newline w)
     end)
    (match parseWarningMessages (rawText s) with
     | [] => Some (lit "Parsed successfully!")
     | _ => None
     end)
    (rowErrors s)
    (build_rows uuidv4 (entries_of (rawText s)) (uuid_drawn s)).2.
Proof.
  unfold parseAndPopulate. simpl.
  destruct (parseWarningMessages (rawText s)); simpl;
    destruct (build_rows _ _ _) as [newVars n]; reflexivity.
Qed.

Lemma parseAndPopulate_error uuidv4 s :
  error (parseAndPopulate uuidv4 s) =
  match parseWarningMessages (rawText s) with
  | [] => None
  | w => Some (join newline w)
  end.
Proof. rewrite parseAndPopulate_unfold. reflexivity. Qed.

Lemma parseAndPopulate_status uuidv4 s :
  status (parseAndPopulate uuidv4 s) =
  match parseWarningMessages (rawText s) with
  | [] => Some (lit "Parsed successfully!")
  | _ => None
  end.
Proof. rewrite parseAndPopulate_unfold. reflexivity. Qed.

Lemma parseAndPopulate_variables uuidv4 s :
  variables (parseAndPopulate uuidv4 s) =
  (build_rows uuidv4 (entries_of (rawText s)) (uuid_drawn s)).1.
Proof. rewrite parseAndPopulate_unfold. reflexivity. Qed.

Lemma parseAndPopulate_frame uuidv4 s :
  rawText (parseAndPopulate uuidv4 s) = rawText s ∧
  rowErrors (parseAndPopulate uuidv4 s) = rowErrors s.
Proof. rewrite parseAndPopulate_unfold. split; reflexivity. Qed.

(** C7. After a run of the parser: when a warning was collected, [error] is
    the warnings joined with newlines and [status] is unset; when none was,
    [error] is cleared and [status] is the success message. *)
Theorem parseAndPopulate_banners (uuidv4 : nat -> str) (s : EditorState) :
  let s' := parseAndPopulate uuidv4 s in
  let warnings := parseWarningMessages (rawText s) in
  (warnings ≠ [] ->
   error s' = Some (join newline warnings) ∧ status s' = None) ∧
  (warnings = [] ->
   error s' = None ∧ status s' = Some (lit "Parsed successfully!")).
Proof.
  cbn zeta. rewrite parseAndPopulate_error, parseAndPopulate_status.
  destruct (parseWarningMessages (rawText s)) as [|w ws].
  - split; [congruence | auto].
  - split; [auto | discriminate].
Qed.

Lemma parseAndPopulate_banners_witness :
  (error (parseAndPopulate counter_uuid (pasted text_onlykey_foo)) =
   Some (warn_no_equals 1 (lit "onlykey")) ∧
   status (parseAndPopulate counter_uuid (pasted text_onlykey_foo)) = None) ∧
  (error (parseAndPopulate counter_uuid (pasted text_foo_baz)) = None ∧
   status (parseAndPopulate counter_uuid (pasted text_foo_baz)) =
   Some (lit "Parsed successfully!")).
Proof.
  split.
  - pose proof (parseAndPopulate_banners counter_uuid (pasted text_onlykey_foo))
      as [H _].
    destruct H as [He Hs]; [vm_compute; discriminate|].
    rewrite He, Hs. split; reflexivity.
  - pose proof (parseAndPopulate_banners counter_uuid (pasted text_foo_baz))
      as [_ H].
    apply H. vm_compute. reflexivity.
Defined.

(** ** Clearing *)

Lemma blank_rows_length uuidv4 n len : length (blank_rows uuidv4 n len) = len.
Proof. unfold blank_rows. rewrite length_fmap. apply length_seq. Qed.

Lemma blank_rows_empty uuidv4 n len :
  Forall (fun r => ev_key r = [] ∧ ev_value r = []) (blank_rows uuidv4 n len).
Proof.
  unfold blank_rows. apply Forall_fmap, Forall_forall.
  intros i _. split; reflexivity.
Qed.

Lemma blank_rows_ids uuidv4 n len :
  ev_id <$> blank_rows uuidv4 n len = uuidv4 <$> seq n len.
Proof. unfold blank_rows. rewrite <- list_fmap_compose. reflexivity. Qed.

Lemma blank_rows_fields uuidv4 n len :
  (fun r => (ev_key r, ev_value r)) <$> blank_rows uuidv4 n len =
  replicate len ([], []).
Proof.
  unfold blank_rows. rewrite <- list_fmap_compose. unfold compose. simpl.
  revert n. induction len as [|len IH]; intros n; simpl; [|rewrite IH];
    reflexivity.
Qed.

Lemma clearAll_unfold uuidv4 s :
  clearAll uuidv4 s =
  mkState [] (blank_rows uuidv4 (uuid_drawn s) INITIAL_ROW_COUNT) None None ∅
    (uuid_drawn s + INITIAL_ROW_COUNT).
Proof. unfold clearAll. rewrite Array_from_spec. reflexivity. Qed.

Lemma initialState_unfold uuidv4 :
  initialState uuidv4 =
  mkState [] (blank_rows uuidv4 0 INITIAL_ROW_COUNT) None None ∅
    INITIAL_ROW_COUNT.
Proof. unfold initialState. rewrite Array_from_spec. reflexivity. Qed.

(** C8. Whatever the state, and so after any sequence of edits, "clear all"
    leaves the initial configuration: 20 rows, all with empty key and value
    and with newly drawn ids, no row errors, no error banner, an empty raw
    text and no status; the parsing effect then leaves that state alone. *)
Theorem clearAll_restores_initial (uuidv4 : nat -> str) (s : EditorState) :
  let s' := clearAll uuidv4 s in
  length (variables s') = 20 ∧
  Forall (fun r => ev_key r = [] ∧ ev_value r = []) (variables s') ∧
  ev_id <$> variables s' = uuidv4 <$> seq (uuid_drawn s) 20 ∧
  (fun r => (ev_key r, ev_value r)) <$> variables s' =
  (fun r => (ev_key r, ev_value r)) <$> variables (initialState uuidv4) ∧
  rowErrors s' = ∅ ∧ rowErrors s' = rowErrors (initialState uuidv4) ∧
  error s' = None ∧ error s' = error (initialState uuidv4) ∧
  rawText s' = [] ∧ rawText s' = rawText (initialState uuidv4) ∧
  status s' = None ∧ status s' = status (initialState uuidv4) ∧
  effect_reparse uuidv4 s' = s'.
Proof.
  cbn zeta. rewrite clearAll_unfold, initialState_unfold.
  cbn [variables rowErrors error rawText status].
  split_and!;
    first [ apply blank_rows_length | apply blank_rows_empty
          | apply blank_rows_ids | by rewrite !blank_rows_fields
          | reflexivity ].
Qed.

(** C9. "Clear text" empties [rawText] and keeps [variables], [rowErrors],
    [error] and [status]; the parsing effect that follows finds an empty
    text and does not run the parser, so the state stays as it is. *)
Theorem clearText_only_rawText (uuidv4 : nat -> str) (s : EditorState) :
  let s' := clearText s in
  rawText s' = [] ∧
  variables s' = variables s ∧
  rowErrors s' = rowErrors s ∧
  error s' = error s ∧
  status s' = status s ∧
  effect_reparse uuidv4 s' = s'.
Proof. cbn zeta. split_and!; reflexivity. Qed.

(** ** What one line contributes *)

Lemma scan_line_spec acc line index :
  scan_line acc line index =
  (acc.1 ++ line_items index line,
   acc.2 ++ option_list (line_warning index line)).
Proof.
  destruct acc as [items warns].
  unfold scan_line, line_items, line_pair, line_warning,
    substring_to, substring_from.
  cbn [fst snd].
  destruct (truthy (trim line)); cbn [negb orb andb];
    [|by rewrite !app_nil_r].
  destruct (startsWith (lit "#") (trim line)); cbn [negb];
    [by rewrite !app_nil_r|].
  destruct (indexOf 61%N (trim line)) as [e|];
    [|by rewrite app_nil_r].
  destruct (truthy (trim (take e (trim line)))); cbn;
    by rewrite app_nil_r.
Qed.

Lemma forEach_scan_spec lines index acc :
  forEach scan_line lines index acc =
  (acc.1 ++ items_from index lines, acc.2 ++ warnings_from index lines).
Proof.
  revert index acc. induction lines as [|line lines IH]; intros index acc.
  - destruct acc. cbn. by rewrite !app_nil_r.
  - cbn [forEach items_from warnings_from].
    rewrite IH, scan_line_spec. cbn [fst snd]. by rewrite !app_assoc.
Qed.

Lemma parsedItems_spec raw : parsedItems raw = items_from 0 (split 10%N raw).
Proof. unfold parsedItems, scan. by rewrite forEach_scan_spec. Qed.

Lemma detect_duplicates_keyCounts w : detect_duplicates keyCounts w = w.
Proof. reflexivity. Qed.

Lemma parseWarningMessages_spec raw :
  parseWarningMessages raw = warnings_from 0 (split 10%N raw).
Proof.
  unfold parseWarningMessages, scan.
  by rewrite detect_duplicates_keyCounts, forEach_scan_spec.
Qed.

Lemma items_from_app index a b :
  items_from index (a ++ b) =
  items_from index a ++ items_from (index + length a) b.
Proof.
  revert index. induction a as [|x a IH]; intros index; cbn.
  - by rewrite Nat.add_0_r.
  - rewrite IH, <- app_assoc. do 3 f_equal. lia.
Qed.

Lemma elem_of_items_from it index lines :
  it ∈ items_from index lines <->
  ∃ j line, lines !! j = Some line ∧ it ∈ line_items (index + j) line.
Proof.
  revert index. induction lines as [|x lines IH]; intros index; cbn.
  - split; [by intros ?%elem_of_nil | by intros (j & line & ? & _)].
  - rewrite elem_of_app, IH. split.
    + intros [H | (j & line & Hj & H)].
      * exists 0, x. by rewrite Nat.add_0_r.
      * exists (S j), line. split; [done|]. by rewrite Nat.add_succ_r.
    + intros ([|j] & line & Hj & H); cbn in Hj.
      * left. injection Hj as ->. by rewrite Nat.add_0_r in H.
      * right. exists j, line. split; [done|]. by rewrite Nat.add_succ_r in H.
Qed.

Lemma elem_of_option_list {A} (x : A) (o : option A) :
  x ∈ option_list o <-> o = Some x.
Proof.
  destruct o as [y|]; cbn.
  - rewrite list_elem_of_singleton. split; congruence.
  - rewrite elem_of_nil. split; [tauto | discriminate].
Qed.

Lemma elem_of_warnings_from w index lines :
  w ∈ warnings_from index lines <->
  ∃ j line, lines !! j = Some line ∧ line_warning (index + j) line = Some w.
Proof.
  revert index. induction lines as [|x lines IH]; intros index; cbn.
  - split; [by intros ?%elem_of_nil | by intros (j & line & ? & _)].
  - rewrite elem_of_app, IH, elem_of_option_list. split.
    + intros [H | (j & line & Hj & H)].
      * exists 0, x. by rewrite Nat.add_0_r.
      * exists (S j), line. split; [done|]. by rewrite Nat.add_succ_r.
    + intros ([|j] & line & Hj & H); cbn in Hj.
      * left. injection Hj as ->. by rewrite Nat.add_0_r in H.
      * right. exists j, line. split; [done|]. by rewrite Nat.add_succ_r in H.
Qed.

Lemma elem_of_line_items it index line :
  it ∈ line_items index line <->
  line_pair line = Some (pi_key it, pi_value it) ∧ pi_line it = index + 1.
Proof.
  unfold line_items. destruct (line_pair line) as [[k v]|].
  - rewrite list_elem_of_singleton. destruct it as [k' v' n']; cbn.
    split; [intros [= -> -> ->]; done | intros [[= -> ->] ->]; done].
  - split; [by intros ?%elem_of_nil | by intros [? _]].
Qed.

(** The items accumulated by the loop are the pairs of the lines, each with
    the 1-based number of its line. *)
Lemma elem_of_parsedItems it raw :
  it ∈ parsedItems raw <->
  ∃ i line, split 10%N raw !! i = Some line ∧
            line_pair line = Some (pi_key it, pi_value it) ∧
            pi_line it = i + 1.
Proof.
  rewrite parsedItems_spec, elem_of_items_from.
  by setoid_rewrite elem_of_line_items.
Qed.

(** ** Warnings *)

Lemma warn_no_equals_not_duplicate n t k c :
  warn_no_equals n t ≠ warn_duplicate k c.
Proof. unfold warn_no_equals, warn_duplicate. cbn. discriminate. Qed.

Lemma warn_empty_key_not_duplicate n t k c :
  warn_empty_key n t ≠ warn_duplicate k c.
Proof. unfold warn_empty_key, warn_duplicate. cbn. discriminate. Qed.

Lemma line_warning_cases index line w :
  line_warning index line = Some w ->
  w = warn_no_equals (index + 1) (trim line) ∨
  w = warn_empty_key (index + 1) (trim line).
Proof.
  unfold line_warning.
  destruct (truthy (trim line) && negb (startsWith (lit "#") (trim line)));
    [|discriminate].
  destruct (indexOf 61%N (trim line)) as [e|].
  - destruct (truthy (trim (take e (trim line)))); [discriminate|].
    intros [= <-]. by right.
  - intros [= <-]. by left.
Qed.

(** C10. The parser never reports a duplicate key: [keyCounts] is created
    empty and never written, so the duplicate scan adds nothing to the
    warnings of the loop over the lines, and every warning is a no-'=' or an
    empty-key message, none a duplicate-key message. *)
Theorem no_duplicate_key_warning (raw : str) :
  keyCounts = [] ∧
  parseWarningMessages raw = (scan raw).2 ∧
  Forall (fun w =>
            (∃ n t, w = warn_no_equals n t ∨ w = warn_empty_key n t) ∧
            ∀ k c, w ≠ warn_duplicate k c)
    (parseWarningMessages raw).
Proof.
  split; [reflexivity|]. split; [reflexivity|].
  apply Forall_forall. intros w Hw.
  rewrite parseWarningMessages_spec in Hw.
  apply elem_of_warnings_from in Hw as (j & line & _ & Hw).
  apply line_warning_cases in Hw as [-> | ->].
  - split; [by eexists _, _; left|]. apply warn_no_equals_not_duplicate.
  - split; [by eexists _, _; right|]. apply warn_empty_key_not_duplicate.
Qed.

(** Two definitions of the same key, and no warning. *)
Example duplicate_keys_no_warning :
  parseWarningMessages (lit "A=1" ++ newline ++ lit "A=2") = [].
Proof. reflexivity. Qed.

Example warn_no_equals_format :
  warn_no_equals 1 (lit "onlykey") =
  lit "Warning: Line 1 does not contain '='. Input: " ++ dquote ++
  lit "onlykey" ++ dquote ++ lit ". Skipping.".
Proof. reflexivity. Qed.

Example warn_empty_key_format :
  warn_empty_key 12 (lit "=V") =
  lit "Warning: Empty key on line 12. Input: " ++ dquote ++ lit "=V" ++
  dquote ++ lit ". Skipping.".
Proof. reflexivity. Qed.

Lemma line_pair_no_equals line :
  indexOf 61%N (trim line) = None -> line_pair line = None.
Proof.
  intros H. unfold line_pair. cbv zeta. rewrite H.
  destruct (truthy (trim line) && negb (startsWith (lit "#") (trim line)));
    reflexivity.
Qed.

Lemma line_pair_empty_key line e :
  indexOf 61%N (trim line) = Some e -> trim (take e (trim line)) = [] ->
  line_pair line = None.
Proof.
  intros H Hk. unfold line_pair. cbv zeta. rewrite H, Hk.
  destruct (truthy (trim line) && negb (startsWith (lit "#") (trim line)));
    reflexivity.
Qed.

Lemma no_item_on_line raw i line :
  split 10%N raw !! i = Some line -> line_pair line = None ->
  Forall (fun it => pi_line it ≠ i + 1) (parsedItems raw).
Proof.
  intros Hi Hp. apply Forall_forall. intros it Hit Hl.
  apply elem_of_parsedItems in Hit as (j & line' & Hj & Hpair & Hline).
  assert (j = i) as -> by lia. congruence.
Qed.

(** C6. A line that is neither blank nor a comment and yields no pair adds
    no item (so no row) and its warning: a line without '=' the message
    "Warning: Line <n> does not contain '='. Input: "<line>". Skipping.", a
    line whose key trims to empty the message "Warning: Empty key on line
    <n>. Input: "<line>". Skipping.", with [n] the 1-based number of the line
    and [<line>] the trimmed line; the warning is part of the error banner. *)
Theorem malformed_line_warns (uuidv4 : nat -> str) (s : EditorState)
    (i : nat) (line : str) :
  split 10%N (rawText s) !! i = Some line ->
  trim line ≠ [] ->
  startsWith (lit "#") (trim line) = false ->
  let reported w :=
    w ∈ parseWarningMessages (rawText s) ∧
    error (parseAndPopulate uuidv4 s) =
      Some (join newline (parseWarningMessages (rawText s))) ∧
    line_pair line = None ∧
    Forall (fun it => pi_line it ≠ i + 1) (parsedItems (rawText s)) in
  (indexOf 61%N (trim line) = None ->
   reported (warn_no_equals (i + 1) (trim line))) ∧
  (forall e, indexOf 61%N (trim line) = Some e ->
             trim (take e (trim line)) = [] ->
             reported (warn_empty_key (i + 1) (trim line))).
Proof.
  intros Hi Hne Hc. cbn zeta.
  assert (Hin : forall w, line_warning i line = Some w ->
                          w ∈ parseWarningMessages (rawText s)).
  { intros w Hw. rewrite parseWarningMessages_spec.
    apply elem_of_warnings_from. by exists i, line. }
  assert (Herr : forall w, w ∈ parseWarningMessages (rawText s) ->
            error (parseAndPopulate uuidv4 s) =
            Some (join newline (parseWarningMessages (rawText s)))).
  { intros w Hw. rewrite parseAndPopulate_error.
    destruct (parseWarningMessages (rawText s)); [|done].
    by apply elem_of_nil in Hw. }
  assert (Hlw : truthy (trim line) && negb (startsWith (lit "#") (trim line))
                = true).
  { apply truthy_true in Hne. by rewrite Hne, Hc. }
  split.
  - intros He.
    assert (line_warning i line = Some (warn_no_equals (i + 1) (trim line))).
    { unfold line_warning. cbv zeta. by rewrite He, Hlw. }
    split_and!; eauto using line_pair_no_equals, no_item_on_line.
  - intros e He Hk.
    assert (line_warning i line = Some (warn_empty_key (i + 1) (trim line))).
    { unfold line_warning. cbv zeta. by rewrite He, Hk, Hlw. }
    split_and!; eauto using line_pair_empty_key, no_item_on_line.
Qed.

Lemma malformed_line_warns_witness :
  warn_no_equals 1 (lit "onlykey") ∈ parseWarningMessages text_onlykey_foo ∧
  warn_empty_key 1 (lit "=V") ∈ parseWarningMessages (lit "  =V").
Proof.
  split.
  - pose proof (malformed_line_warns counter_uuid (pasted text_onlykey_foo)
                  0 (lit "onlykey")) as H.
    destruct H as [H _]; [reflexivity | discriminate | reflexivity |].
    apply H. reflexivity.
  - pose proof (malformed_line_warns counter_uuid (pasted (lit "  =V"))
                  0 (lit "  =V")) as H.
    destruct H as [_ H]; [reflexivity | discriminate | reflexivity |].
    apply (H 0); reflexivity.
Defined.

(** ** Output serialisation *)

Lemma rowErrors_nonempty_insert e id msg :
  rowErrors_nonempty e -> msg ≠ [] -> rowErrors_nonempty (<[id := msg]> e).
Proof.
  intros He Hmsg id' msg'. rewrite lookup_insert.
  case_decide; [by intros [= <-] | apply He].
Qed.

Lemma handle_rowErrors_nonempty uuidv4 e s :
  rowErrors_nonempty (rowErrors s) ->
  rowErrors_nonempty (rowErrors (handle uuidv4 e s)).
Proof.
  intros Hs. destruct e as [v|id field v| |id| | | |]; cbn [handle].
  - exact Hs.
  - unfold handleVariableChange. destruct field; [|exact Hs].
    destruct (truthy (trim v)); cbn [negb];
      [destruct (KEY_REGEX_test v); cbn [negb]|];
      cbn [rowErrors setRowErrors setVariables];
      by apply rowErrors_nonempty_insert.
  - exact Hs.
  - exact Hs.
  - rewrite clearAll_unfold. cbn. intros id msg. by rewrite lookup_empty.
  - exact Hs.
  - unfold effect_reparse. destruct (truthy (rawText s)); [|exact Hs].
    by rewrite (proj2 (parseAndPopulate_frame uuidv4 s)).
  - exact Hs.
Qed.

Lemma reachable_rowErrors_nonempty uuidv4 s :
  reachable uuidv4 s -> rowErrors_nonempty (rowErrors s).
Proof.
  induction 1 as [|e s _ IH].
  - rewrite initialState_unfold. cbn. intros id msg. by rewrite lookup_empty.
  - by apply handle_rowErrors_nonempty.
Qed.

(** Every sequence of events leads from the initial state to a reachable
    one. *)
Lemma run_reachable uuidv4 events :
  reachable uuidv4 (run uuidv4 events (initialState uuidv4)).
Proof.
  unfold run. induction events as [|e events IH] using rev_ind.
  - apply reachable_init.
  - rewrite foldl_snoc. by apply reachable_step.
Qed.

Lemma List_filter_decide {A} (f : A -> bool) (P : A -> Prop)
    `{!forall x, Decision (P x)} (l : list A) :
  (forall x, f x = true <-> P x) -> List.filter f l = filter P l.
Proof.
  intros Hf. induction l as [|x l IH]; [done|]. cbn [List.filter].
  destruct (decide (P x)) as [HP|HP].
  - rewrite filter_cons_True by done. rewrite (proj2 (Hf x) HP). by f_equal.
  - rewrite filter_cons_False by done.
    destruct (f x) eqn:Hfx; [by apply Hf in Hfx|done].
Qed.

(** C2. In every state the editor can reach, the output is exactly the rows
    whose key trims to non-empty and whose id has no entry in [rowErrors],
    in row order, each as [<key>=<value>] with the value as it stands,
    joined with newlines. *)
Theorem getOutputText_spec (uuidv4 : nat -> str) (s : EditorState) :
  reachable uuidv4 s ->
  getOutputText s = join newline (output_line <$> output_rows s).
Proof.
  intros Hs%reachable_rowErrors_nonempty.
  unfold getOutputText, output_rows. do 2 f_equal.
  apply List_filter_decide. intros r.
  rewrite andb_true_iff, truthy_true. unfold no_row_error.
  destruct (rowErrors s !! ev_id r) as [msg|] eqn:Hr.
  - apply Hs, truthy_true in Hr. rewrite Hr. cbn. intuition congruence.
  - tauto.
Qed.

Lemma getOutputText_spec_witness :
  getOutputText
    (handle counter_uuid Effect
       (handle counter_uuid (TextChange text_foo_baz)
          (initialState counter_uuid))) =
  lit "FOO=bar" ++ newline ++ lit "BAZ=qux".
Proof.
  rewrite (getOutputText_spec counter_uuid).
  - vm_compute. reflexivity.
  - apply reachable_step, reachable_step, reachable_init.
Defined.

(** ** Deduplication *)

Section Objects.
Context {V : Type}.
Implicit Types (acc o : list (str * V)) (k : str) (v : V).

Lemma has_key_true k o : has_key k o = true <-> k ∈ o.*1.
Proof.
  unfold has_key. rewrite existsb_exists, list_elem_of_fmap.
  split.
  - intros (e & He & Hk). apply bool_decide_eq_true in Hk.
    exists e. by rewrite <- list_elem_of_In in He.
  - intros (e & -> & He). exists e. rewrite <- list_elem_of_In.
    split; [done|]. by apply bool_decide_eq_true.
Qed.

Lemma has_key_false k o : has_key k o = false <-> k ∉ o.*1.
Proof. rewrite <- has_key_true. by destruct (has_key k o). Qed.

Lemma spread_set_keys acc k v :
  (spread_set acc k v).*1 = if has_key k acc then acc.*1 else acc.*1 ++ [k].
Proof.
  unfold spread_set. destruct (has_key k acc).
  - rewrite <- list_fmap_compose. apply list_fmap_ext.
    intros i e _. cbn. by case_bool_decide.
  - by rewrite fmap_app.
Qed.

Lemma spread_set_NoDup acc k v :
  NoDup acc.*1 -> NoDup (spread_set acc k v).*1.
Proof.
  intros Hacc. rewrite spread_set_keys.
  destruct (has_key k acc) eqn:Hk; [done|].
  apply has_key_false in Hk. apply NoDup_app.
  split_and!; [done| |apply NoDup_singleton].
  intros k' Hk' ->%list_elem_of_singleton. done.
Qed.

Lemma elem_of_spread_set acc k v k' v' :
  (k', v') ∈ spread_set acc k v <->
  (k' = k ∧ v' = v) ∨ (k' ≠ k ∧ (k', v') ∈ acc).
Proof.
  unfold spread_set. destruct (has_key k acc) eqn:Hk.
  - rewrite list_elem_of_fmap. split.
    + intros ([k0 v0] & He & Hin). cbn in He. case_bool_decide.
      * left. by injection He.
      * right. injection He as -> ->. done.
    + intros [[-> ->] | [Hne Hin]].
      * apply has_key_true, list_elem_of_fmap in Hk as ([k0 v0] & -> & Hin).
        exists (k0, v0). cbn. by rewrite bool_decide_eq_true_2.
      * exists (k', v'). cbn. by rewrite bool_decide_eq_false_2.
  - apply has_key_false in Hk.
    rewrite elem_of_app, list_elem_of_singleton. split.
    + intros [Hin | [= -> ->]]; [right | by left].
      split; [|done]. intros ->. apply Hk, list_elem_of_fmap.
      by exists (k, v').
    + intros [[-> ->] | [_ Hin]]; [by right | by left].
Qed.

Lemma Object_entries_Permutation o : Object_entries o ≡ₚ o.
Proof.
  unfold Object_entries. rewrite merge_sort_Permutation.
  apply filter_app_complement.
Qed.

End Objects.

Lemma last_def_snoc k items it :
  last_def k (items ++ [it]) =
  if decide (pi_key it = k) then Some (pi_value it) else last_def k items.
Proof. unfold last_def. by rewrite foldl_snoc. Qed.

Lemma last_def_app k a b :
  last_def k (a ++ b) =
  match last_def k b with Some v => Some v | None => last_def k a end.
Proof.
  induction b as [|it b IH] using rev_ind.
  - by rewrite app_nil_r.
  - rewrite app_assoc, !last_def_snoc. by case_decide.
Qed.

Lemma last_def_None k items :
  last_def k items = None <-> Forall (fun it => pi_key it ≠ k) items.
Proof.
  induction items as [|it items IH] using rev_ind.
  - split; [constructor | done].
  - rewrite last_def_snoc, Forall_app, Forall_singleton, <- IH.
    case_decide; [split; [done | tauto] | tauto].
Qed.

Lemma dedupe_snoc items it :
  dedupe (items ++ [it]) = spread_set (dedupe items) (pi_key it) (pi_value it).
Proof. unfold dedupe. by rewrite foldl_snoc. Qed.

Lemma dedupe_NoDup items : NoDup (dedupe items).*1.
Proof.
  induction items as [|it items IH] using rev_ind.
  - constructor.
  - rewrite dedupe_snoc. by apply spread_set_NoDup.
Qed.

(** The deduplicated object maps every key to its last value. *)
Lemma elem_of_dedupe items k v :
  (k, v) ∈ dedupe items <-> last_def k items = Some v.
Proof.
  revert v. induction items as [|it items IH] using rev_ind; intros v.
  - cbn. rewrite elem_of_nil. split; [done | discriminate].
  - rewrite dedupe_snoc, elem_of_spread_set, last_def_snoc, IH.
    case_decide; split.
    + intros [[_ ->] | [? _]]; [done | congruence].
    + intros [= <-]. by left.
    + intros [[? _] | [_ ?]]; [congruence | done].
    + intros ?. right. split; [congruence | done].
Qed.

Lemma elem_of_entries_of raw k v :
  (k, v) ∈ entries_of raw <-> last_def k (parsedItems raw) = Some v.
Proof.
  unfold entries_of. by rewrite Object_entries_Permutation, elem_of_dedupe.
Qed.

Lemma entries_of_NoDup raw : NoDup (entries_of raw).*1.
Proof.
  unfold entries_of. rewrite Object_entries_Permutation. apply dedupe_NoDup.
Qed.

(** ** The last definition of a key *)

Lemma last_def_line_items k index line :
  last_def k (line_items index line) =
  match line_pair line with
  | Some (k', v) => if decide (k' = k) then Some v else None
  | None => None
  end.
Proof. unfold line_items. by destruct (line_pair line) as [[k' v]|]. Qed.

Lemma last_def_items_from_None k index lines :
  last_def k (items_from index lines) = None <->
  forall j line v, lines !! j = Some line -> line_pair line ≠ Some (k, v).
Proof.
  rewrite last_def_None, Forall_forall. split.
  - intros H j line v Hj Hp.
    apply (H (mkItem k v (index + j + 1))); [|done].
    apply elem_of_items_from. exists j, line. split; [done|].
    by apply elem_of_line_items.
  - intros H it Hit Hk.
    apply elem_of_items_from in Hit as (j & line & Hj & Hit).
    apply elem_of_line_items in Hit as [Hp _].
    apply (H j line (pi_value it) Hj). by rewrite <- Hk.
Qed.

Lemma last_def_items_from k v index lines :
  last_def k (items_from index lines) = Some v <->
  ∃ i, last_definition lines k v i.
Proof.
  revert index v. induction lines as [|l ls IH]; intros index v.
  - cbn. split; [discriminate | by intros (i & line & ? & _)].
  - cbn [items_from]. rewrite last_def_app.
    destruct (last_def k (items_from (S index) ls)) as [v1|] eqn:Hls.
    + split.
      * intros [= <-]. apply IH in Hls as (i & line & Hi & Hp & Hlast).
        exists (S i), line. split_and!; [done..|].
        intros [|j] line' v' Hj Hj'; [lia|]. apply (Hlast j); [lia | done].
      * intros ([|i] & line & Hi & Hp & Hlast).
        -- apply IH in Hls as (i1 & line1 & Hi1 & Hp1 & _).
           by destruct (Hlast (S i1) line1 v1); [lia|..].
        -- assert (last_def k (items_from (S index) ls) = Some v) as Hv;
             [|congruence].
           apply IH. exists i, line. split_and!; [done..|].
           intros j line' v' Hj Hj'. apply (Hlast (S j)); [lia | done].
    + rewrite last_def_items_from_None in Hls.
      rewrite last_def_line_items. split.
      * intros Hl. exists 0, l.
        destruct (line_pair l) as [[k' v0]|]; [|done].
        case_decide; [|done]. injection Hl as ->. subst k'.
        split_and!; [done..|].
        intros [|j] line' v' Hj Hj'; [lia|]. by apply (Hls j).
      * intros ([|i] & line & Hi & Hp & _).
        -- injection Hi as ->. rewrite Hp. by rewrite decide_True.
        -- by destruct (Hls i line v).
Qed.

(** A key that some line defines has a last definition. *)
Lemma last_definition_exists lines k i line v0 :
  lines !! i = Some line -> line_pair line = Some (k, v0) ->
  ∃ v p, last_definition lines k v p.
Proof.
  intros Hi Hp.
  destruct (last_def k (items_from 0 lines)) as [v|] eqn:Hd.
  - exists v. by apply (last_def_items_from k v 0).
  - rewrite last_def_items_from_None in Hd. by destruct (Hd i line v0).
Qed.

Lemma elem_of_entries_of_lines raw k v :
  (k, v) ∈ entries_of raw <-> ∃ i, last_definition (split 10%N raw) k v i.
Proof.
  by rewrite elem_of_entries_of, parsedItems_spec, last_def_items_from.
Qed.

(** ** The rows built from the entries *)

Section Rows.
Variable uuidv4 : nat -> str.

Lemma push_row_spec entries rows n i :
  push_row uuidv4 entries (rows, n + i) i =
  (rows ++ [row_at uuidv4 entries n i], n + S i).
Proof.
  unfold push_row, row_at, createEmptyVariable. rewrite nth_lookup.
  destruct (entries !! i) as [[k v]|] eqn:Hi.
  - apply lookup_lt_Some in Hi as Hlt.
    apply Nat.ltb_lt in Hlt. rewrite Hlt. cbn. by rewrite Nat.add_succ_r.
  - apply lookup_ge_None in Hi as Hge.
    apply Nat.ltb_ge in Hge. rewrite Hge. by rewrite Nat.add_succ_r.
Qed.

Lemma foldl_push_row entries n m :
  foldl (push_row uuidv4 entries) ([], n) (seq 0 m) =
  (row_at uuidv4 entries n <$> seq 0 m, n + m).
Proof.
  induction m as [|m IH].
  - cbn. by rewrite Nat.add_0_r.
  - rewrite seq_S, foldl_snoc, IH, fmap_app. cbn [Nat.add].
    apply push_row_spec.
Qed.

Lemma build_rows_spec entries n :
  build_rows uuidv4 entries n =
  (row_at uuidv4 entries n <$> seq 0 (Nat.max INITIAL_ROW_COUNT (length entries)),
   n + Nat.max INITIAL_ROW_COUNT (length entries)).
Proof. unfold build_rows. apply foldl_push_row. Qed.

Lemma build_rows_lookup entries n p r :
  (build_rows uuidv4 entries n).1 !! p = Some r <->
  p < Nat.max INITIAL_ROW_COUNT (length entries) ∧ r = row_at uuidv4 entries n p.
Proof.
  rewrite build_rows_spec. cbn [fst].
  rewrite list_lookup_fmap, fmap_Some. setoid_rewrite lookup_seq.
  split.
  - intros (i & [-> Hlt] & ->). done.
  - intros [Hlt ->]. exists p. done.
Qed.

Lemma build_rows_length entries n :
  length (build_rows uuidv4 entries n).1 =
  Nat.max INITIAL_ROW_COUNT (length entries).
Proof. rewrite build_rows_spec. cbn. by rewrite length_fmap, length_seq. Qed.

Lemma build_rows_ids entries n :
  ev_id <$> (build_rows uuidv4 entries n).1 =
  uuidv4 <$> seq n (Nat.max INITIAL_ROW_COUNT (length entries)).
Proof.
  rewrite build_rows_spec. cbn [fst].
  rewrite <- (Nat.add_0_r n) at 2. rewrite <- fmap_add_seq.
  rewrite <- !list_fmap_compose. apply list_fmap_ext.
  intros i x _. unfold row_at. cbn.
  by destruct (entries !! x) as [[k v]|].
Qed.

Lemma build_rows_entries entries n :
  row_fields <$> take (length entries) (build_rows uuidv4 entries n).1 =
  entries.
Proof.
  apply list_eq. intros i.
  rewrite list_lookup_fmap.
  destruct (decide (i < length entries)) as [Hlt|Hge].
  - rewrite lookup_take_lt by done.
    destruct (lookup_lt_is_Some_2 entries i Hlt) as [[k v] Hi].
    rewrite (proj2 (build_rows_lookup entries n i (row_at uuidv4 entries n i)))
      by (split; [lia | done]).
    cbn. unfold row_at. by rewrite Hi.
  - rewrite (lookup_ge_None_2 entries) by lia.
    rewrite lookup_ge_None_2; [done|]. rewrite length_take. lia.
Qed.

Lemma build_rows_padding entries n :
  Forall (fun r => ev_key r = [] ∧ ev_value r = [])
    (drop (length entries) (build_rows uuidv4 entries n).1).
Proof.
  apply Forall_lookup. intros i r. rewrite lookup_drop, build_rows_lookup.
  intros [_ ->]. unfold row_at.
  by rewrite (lookup_ge_None_2 entries) by lia.
Qed.

End Rows.

(** ** Row count and padding *)

Lemma last_def_is_Some k items :
  is_Some (last_def k items) <-> k ∈ pi_key <$> items.
Proof.
  induction items as [|it items IH] using rev_ind.
  - cbn. rewrite elem_of_nil. split; [by intros [? ?] | done].
  - rewrite last_def_snoc, fmap_app, elem_of_app, <- IH. cbn.
    rewrite list_elem_of_singleton. case_decide.
    + split; [by right | by eexists].
    + split; [by left | intros [?|?]; [done | congruence]].
Qed.

Lemma entries_of_keys raw k :
  k ∈ (entries_of raw).*1 <-> k ∈ pi_key <$> parsedItems raw.
Proof.
  rewrite <- last_def_is_Some, list_elem_of_fmap. split.
  - intros ([k' v] & -> & Hin). apply elem_of_entries_of in Hin. by exists v.
  - intros [v Hv]. exists (k, v). split; [done|]. by apply elem_of_entries_of.
Qed.

Lemma entries_of_length raw : length (entries_of raw) = unique_keys raw.
Proof.
  unfold unique_keys.
  rewrite <- (length_fmap fst), <- (size_list_to_set (C:=gset str))
    by apply entries_of_NoDup.
  f_equal. apply set_eq. intros k.
  by rewrite !elem_of_list_to_set, entries_of_keys.
Qed.

(** C4. The parser yields [max 20 N] rows, [N] being the number of unique
    parsed keys: the first [N] rows carry the deduplicated entries, one per
    unique key, the [20 - N] rows after them (none when [N] is 20 or more)
    are empty, and every row has a newly drawn id. *)
Theorem parseAndPopulate_row_count (uuidv4 : nat -> str) (s : EditorState) :
  let rows := variables (parseAndPopulate uuidv4 s) in
  let N := unique_keys (rawText s) in
  length rows = Nat.max 20 N ∧
  length (entries_of (rawText s)) = N ∧
  NoDup (entries_of (rawText s)).*1 ∧
  (list_to_set (entries_of (rawText s)).*1 : gset str) =
    list_to_set (pi_key <$> parsedItems (rawText s)) ∧
  row_fields <$> take N rows = entries_of (rawText s) ∧
  length (drop N rows) = 20 - N ∧
  Forall (fun r => ev_key r = [] ∧ ev_value r = []) (drop N rows) ∧
  ev_id <$> rows = uuidv4 <$> seq (uuid_drawn s) (Nat.max 20 N).
Proof.
  cbn zeta. rewrite parseAndPopulate_variables.
  pose proof (entries_of_length (rawText s)) as HN.
  split_and!.
  - by rewrite build_rows_length, HN.
  - done.
  - apply entries_of_NoDup.
  - apply set_eq. intros k.
    by rewrite !elem_of_list_to_set, entries_of_keys.
  - rewrite <- HN. apply build_rows_entries.
  - rewrite length_drop, build_rows_length, HN.
    unfold INITIAL_ROW_COUNT. lia.
  - rewrite <- HN. apply build_rows_padding.
  - rewrite build_rows_ids. by rewrite HN.
Qed.

(** Two keys and a comment: two filled rows and 18 empty ones. *)
Example parse_foo_baz_rows :
  row_fields <$> variables (parseAndPopulate counter_uuid (pasted text_foo_baz))
  = [(lit "FOO", lit "bar"); (lit "BAZ", lit "qux")] ++ replicate 18 ([], []).
Proof. vm_compute. reflexivity. Qed.

Example parse_21_keys_rows :
  length (variables (parseAndPopulate counter_uuid (pasted text_21_keys))) = 21
  ∧ unique_keys text_21_keys = 21.
Proof. vm_compute. split; reflexivity. Qed.

(** ** Duplicate keys *)

Lemma line_pair_key_nonempty line k v : line_pair line = Some (k, v) -> k ≠ [].
Proof.
  unfold line_pair. cbv zeta.
  destruct (truthy (trim line) && negb (startsWith (lit "#") (trim line)));
    [|discriminate].
  destruct (indexOf 61%N (trim line)) as [e|]; [|discriminate].
  destruct (truthy (trim (take e (trim line)))) eqn:Hk; [|discriminate].
  intros [= <- _]. by apply truthy_true.
Qed.

(** A pair of the entries sits in exactly one row. *)
Lemma entry_has_one_row uuidv4 s k v :
  k ≠ [] -> (k, v) ∈ entries_of (rawText s) ->
  ∃ p r, variables (parseAndPopulate uuidv4 s) !! p = Some r ∧
         ev_key r = k ∧ ev_value r = v ∧
         forall q r', variables (parseAndPopulate uuidv4 s) !! q = Some r' ->
                      ev_key r' = k -> q = p.
Proof.
  intros Hk Hin. rewrite parseAndPopulate_variables.
  set (entries := entries_of (rawText s)) in *.
  apply list_elem_of_lookup in Hin as [p Hp].
  exists p, (row_at uuidv4 entries (uuid_drawn s) p). split_and!.
  - apply build_rows_lookup. split; [|done].
    apply lookup_lt_Some in Hp. lia.
  - unfold row_at. by rewrite Hp.
  - unfold row_at. by rewrite Hp.
  - intros q r' [_ ->]%build_rows_lookup. unfold row_at.
    destruct (entries !! q) as [[k' v']|] eqn:Hq; cbn; [|congruence].
    intros ->.
    apply (NoDup_lookup entries.*1 q p k (entries_of_NoDup (rawText s)));
      rewrite list_lookup_fmap; [by rewrite Hq | by rewrite Hp].
Qed.

(** A row is empty-keyed or carries the last definition of its key. *)
Lemma rows_from_last_definitions uuidv4 s :
  Forall (fun r => ev_key r = [] ∨
                   ∃ i, last_definition (split 10%N (rawText s))
                          (ev_key r) (ev_value r) i)
    (variables (parseAndPopulate uuidv4 s)).
Proof.
  rewrite parseAndPopulate_variables. apply Forall_lookup.
  intros p r [_ ->]%build_rows_lookup. unfold row_at.
  destruct (entries_of (rawText s) !! p) as [[k v]|] eqn:Hp; [|by left].
  right. cbn. apply elem_of_entries_of_lines, list_elem_of_lookup. eauto.
Qed.

(** C3. Whatever the input, duplicates or not: a key that some line defines
    has exactly one row, whose value is the one of the last line that defines
    the key; and a row with a non-empty key carries the last definition of
    that key, so the filled rows are one per unique key. *)
Theorem duplicate_keys_last_wins (uuidv4 : nat -> str) (s : EditorState) :
  let lines := split 10%N (rawText s) in
  let rows := variables (parseAndPopulate uuidv4 s) in
  (forall k i line v0,
     lines !! i = Some line -> line_pair line = Some (k, v0) ->
     ∃ p r, rows !! p = Some r ∧ ev_key r = k ∧
            (forall q r', rows !! q = Some r' -> ev_key r' = k -> q = p) ∧
            ∃ j, last_definition lines k (ev_value r) j) ∧
  Forall (fun r => ev_key r = [] ∨
                   ∃ j, last_definition lines (ev_key r) (ev_value r) j) rows.
Proof.
  cbn zeta. split; [|apply rows_from_last_definitions].
  intros k i line v0 Hi Hp.
  destruct (last_definition_exists _ _ _ _ _ Hi Hp) as (v & j & Hlast).
  destruct (entry_has_one_row uuidv4 s k v) as (p & r & Hr & Hk & Hv & Hu).
  - by eapply line_pair_key_nonempty.
  - apply elem_of_entries_of_lines. eauto.
  - exists p, r. split_and!; [done..|]. exists j. by rewrite Hv.
Qed.

Lemma duplicate_keys_last_wins_witness :
  ∃ p r,
    variables (parseAndPopulate counter_uuid (pasted text_a1_a2)) !! p = Some r
    ∧ ev_key r = lit "A"
    ∧ (forall q r',
         variables (parseAndPopulate counter_uuid (pasted text_a1_a2)) !! q
         = Some r' -> ev_key r' = lit "A" -> q = p)
    ∧ ∃ j, last_definition (split 10%N text_a1_a2) (lit "A") (ev_value r) j.
Proof.
  apply (proj1 (duplicate_keys_last_wins counter_uuid (pasted text_a1_a2))
           (lit "A") 0 (lit "A=1") (lit "1")); reflexivity.
Defined.

(** The scenario of the specification: one row [A], with value [2]. *)
Example parse_a1_a2_rows :
  row_fields <$> variables (parseAndPopulate counter_uuid (pasted text_a1_a2))
  = (lit "A", lit "2") :: replicate 19 ([], []).
Proof. vm_compute. reflexivity. Qed.

(** ** Trimming and well-formed lines *)

Lemma isKeyChar_not_space c : isKeyChar c = true -> isWhiteSpace c = false.
Proof.
  unfold isKeyChar, isWhiteSpace. intros H.
  repeat (apply orb_true_iff in H as [H|H]);
    [apply andb_true_iff in H as [?%N.leb_le ?%N.leb_le]..
    |apply N.eqb_eq in H];
    apply not_true_iff_false; intros Hw;
    repeat (apply orb_true_iff in Hw as [Hw|Hw]);
    try (apply andb_true_iff in Hw as [?%N.leb_le ?%N.leb_le]);
    try (apply N.eqb_eq in Hw); lia.
Qed.

Lemma isKeyChar_not c : isKeyChar c = true -> c ≠ 61%N ∧ c ≠ 35%N.
Proof.
  unfold isKeyChar. intros H.
  repeat (apply orb_true_iff in H as [H|H]);
    [apply andb_true_iff in H as [?%N.leb_le ?%N.leb_le]..
    |apply N.eqb_eq in H]; lia.
Qed.

Lemma trimStart_cons c s : isWhiteSpace c = false -> trimStart (c :: s) = c :: s.
Proof. intros H. cbn. by rewrite H. Qed.

Lemma trimStart_app_cons x c y :
  isWhiteSpace c = false -> trimStart (x ++ c :: y) = trimStart x ++ c :: y.
Proof.
  intros Hc. induction x as [|a x IH]; cbn.
  - by rewrite Hc.
  - by destruct (isWhiteSpace a).
Qed.

Lemma trimStart_idemp s : trimStart (trimStart s) = trimStart s.
Proof.
  induction s as [|a s IH]; [done|]. cbn.
  destruct (isWhiteSpace a) eqn:Ha; [done|]. cbn. by rewrite Ha.
Qed.

Lemma trimEnd_idemp s : trimEnd (trimEnd s) = trimEnd s.
Proof.
  unfold trimEnd. by rewrite reverse_involutive, trimStart_idemp.
Qed.

Lemma trimEnd_app_cons x c y :
  isWhiteSpace c = false -> trimEnd (x ++ c :: y) = x ++ c :: trimEnd y.
Proof.
  intros Hc. unfold trimEnd.
  rewrite reverse_app, reverse_cons, <- app_assoc. cbn [app].
  rewrite trimStart_app_cons by done.
  rewrite reverse_app, reverse_cons, reverse_involutive, <- app_assoc.
  reflexivity.
Qed.

Lemma trim_trimEnd s : trim (trimEnd s) = trim s.
Proof. unfold trim. by rewrite trimEnd_idemp. Qed.

(** Trimming leaves a string without whitespace as it is. *)
Lemma trim_no_space s :
  Forall (fun c => isWhiteSpace c = false) s -> trim s = s.
Proof.
  intros Hs. unfold trim.
  assert (trimEnd s = s) as ->.
  { revert Hs. induction s as [|c s _] using rev_ind; intros Hs; [done|].
    apply Forall_app in Hs as [_ Hc%Forall_inv].
    rewrite (trimEnd_app_cons s c []) by done. reflexivity. }
  destruct Hs as [|c s Hc _]; [done|]. by apply trimStart_cons.
Qed.

Lemma indexOf_app_cons c x y : c ∉ x -> indexOf c (x ++ c :: y) = Some (length x).
Proof.
  induction x as [|a x IH]; cbn; intros Hx.
  - by rewrite N.eqb_refl.
  - apply not_elem_of_cons in Hx as [Hne Hx].
    apply not_eq_sym, N.eqb_neq in Hne. rewrite Hne, IH by done. done.
Qed.

(** The pair of a line [K=V] whose key matches [KEY_REGEX]. *)
Lemma line_pair_key_value K V :
  KEY_REGEX_test K = true ->
  line_pair (K ++ lit "=" ++ V) = Some (K, trim V).
Proof.
  intros [HK Hall]%KEY_REGEX_test_true.
  assert (Hsp : Forall (fun c => isWhiteSpace c = false) K).
  { eapply Forall_impl; [done|]. apply isKeyChar_not_space. }
  assert (Heq : 61%N ∉ K).
  { intros Hin. rewrite Forall_forall in Hall.
    by destruct (isKeyChar_not _ (Hall _ Hin)). }
  assert (Ht : trim (K ++ lit "=" ++ V) = K ++ 61%N :: trimEnd V).
  { unfold trim. change (lit "=" ++ V) with (61%N :: V).
    rewrite trimEnd_app_cons by done.
    destruct Hsp as [|c K' Hc _]; [done|]. by apply trimStart_cons. }
  unfold line_pair. cbv zeta. rewrite Ht.
  assert (truthy (K ++ 61%N :: trimEnd V) = true) as ->.
  { by destruct K. }
  assert (startsWith (lit "#") (K ++ 61%N :: trimEnd V) = false) as ->.
  { destruct Hall as [|c K' Hc _]; [done|].
    destruct (isKeyChar_not _ Hc) as [_ Hne].
    apply not_eq_sym, N.eqb_neq in Hne.
    change (startsWith (lit "#") ((c :: K') ++ 61%N :: trimEnd V))
      with ((35 =? c)%N && true).
    by rewrite Hne. }
  cbn [negb andb]. rewrite indexOf_app_cons by done.
  rewrite take_app_length.
  rewrite trim_no_space by done.
  apply truthy_true in HK as ->.
  replace (drop (length K + 1) (K ++ 61%N :: trimEnd V)) with (trimEnd V).
  - by rewrite trim_trimEnd.
  - rewrite Nat.add_1_r.
    change (K ++ 61%N :: trimEnd V) with (K ++ [61%N] ++ trimEnd V).
    rewrite app_assoc. symmetry. apply drop_app_length'.
    rewrite length_app. cbn. lia.
Qed.

(** C5. A line [K=V] whose key [K] matches [[A-Za-z0-9_]+], no other line
    defining [K], yields a row with key [K] whose value is the text after the
    first '=' with the whitespace at both ends removed; it is the only row
    with that key. *)
Theorem valid_line_yields_row (uuidv4 : nat -> str) (s : EditorState)
    (i : nat) (K V : str) :
  let lines := split 10%N (rawText s) in
  let rows := variables (parseAndPopulate uuidv4 s) in
  lines !! i = Some (K ++ lit "=" ++ V) ->
  KEY_REGEX_test K = true ->
  (forall j line' v', j ≠ i -> lines !! j = Some line' ->
                      line_pair line' ≠ Some (K, v')) ->
  ∃ p r, rows !! p = Some r ∧ ev_key r = K ∧ ev_value r = trim V ∧
         forall q r', rows !! q = Some r' -> ev_key r' = K -> q = p.
Proof.
  cbn zeta. intros Hi HK Hother.
  apply entry_has_one_row.
  - by apply KEY_REGEX_test_true in HK as [? _].
  - apply elem_of_entries_of_lines. exists i, (K ++ lit "=" ++ V).
    split_and!; [done | by apply line_pair_key_value |].
    intros j line' v' Hj. apply Hother. lia.
Qed.

Lemma valid_line_yields_row_witness :
  ∃ p r,
    variables (parseAndPopulate counter_uuid (pasted text_spaced)) !! p = Some r
    ∧ ev_key r = lit "FOO" ∧ ev_value r = trim (lit " bar ")
    ∧ forall q r',
        variables (parseAndPopulate counter_uuid (pasted text_spaced)) !! q
        = Some r' -> ev_key r' = lit "FOO" -> q = p.
Proof.
  apply (valid_line_yields_row counter_uuid (pasted text_spaced) 0
           (lit "FOO") (lit " bar ")).
  - reflexivity.
  - reflexivity.
  - intros j line' v' Hj Hl.
    destruct j as [|[|j]]; [done| |done].
    vm_compute in Hl. injection Hl as <-. vm_compute. discriminate.
Defined.

Example parse_spaced_rows :
  row_fields <$>
    take 2 (variables (parseAndPopulate counter_uuid (pasted text_spaced)))
  = [(lit "FOO", lit "bar"); (lit "BAZ", lit "qux")].
Proof. vm_compute. reflexivity. Qed.

(** * Further properties of the editor *)

(** ** Row identifiers *)

(** The ids of the rows are draws of the generator, pairwise distinct draws
    made before the current count. *)
Lemma reachable_ids_drawn uuidv4 s :
  reachable uuidv4 s ->
  ∃ ns, ev_id <$> variables s = uuidv4 <$> ns ∧ NoDup ns ∧
        Forall (fun n => n < uuid_drawn s) ns.
Proof.
  induction 1 as [|e s _ (ns & Hids & Hnd & Hlt)].
  - rewrite initialState_unfold. cbn [variables uuid_drawn].
    exists (seq 0 INITIAL_ROW_COUNT). rewrite blank_rows_ids.
    split_and!; [done | apply NoDup_seq |].
    apply Forall_forall. intros n Hn%elem_of_seq. lia.
  - destruct e as [v|id field v| |id| | | |]; cbn [handle].
    + by exists ns.
    + exists ns. split_and!; [|done|].
      * rewrite handleVariableChange_variables, <- Hids.
        rewrite <- list_fmap_compose. apply list_fmap_ext.
        intros i r _. cbn. case_bool_decide; [|done]. by destruct field.
      * by destruct field; unfold handleVariableChange; cbn;
          repeat case_match.
    + exists (ns ++ [uuid_drawn s]). unfold addVariableRow. cbn.
      rewrite !fmap_app, Hids. split_and!; [done| |].
      * apply NoDup_app. split_and!; [done| |apply NoDup_singleton].
        intros n Hn ->%list_elem_of_singleton.
        rewrite Forall_forall in Hlt. specialize (Hlt _ Hn). lia.
      * apply Forall_app. split; [|by repeat constructor].
        eapply Forall_impl; [done|]. cbn. lia.
    + exists (filter (fun n => uuidv4 n ≠ id) ns).
      unfold deleteVariableRow. cbn [variables setVariables uuid_drawn].
      split_and!.
      * clear Hnd Hlt. revert ns Hids.
        induction (variables s) as [|r rows IH]; intros [|n ns] Hids;
          try discriminate; [done|].
        injection Hids as Hr Hrows. cbn [List.filter].
        rewrite filter_cons. rewrite <- Hr.
        case_bool_decide; case_decide; try done; cbn [negb].
        -- by apply IH.
        -- rewrite !fmap_cons, <- Hr. f_equal. by apply IH.
      * by apply NoDup_filter.
      * apply Forall_forall. intros n [_ Hn]%list_elem_of_filter.
        rewrite Forall_forall in Hlt. by apply Hlt.
    + rewrite clearAll_unfold. cbn [variables uuid_drawn].
      exists (seq (uuid_drawn s) INITIAL_ROW_COUNT). rewrite blank_rows_ids.
      split_and!; [done | apply NoDup_seq |].
      apply Forall_forall. intros n Hn%elem_of_seq. lia.
    + by exists ns.
    + unfold effect_reparse. destruct (truthy (rawText s)); [|by exists ns].
      rewrite parseAndPopulate_unfold. cbn [variables uuid_drawn].
      rewrite build_rows_ids, build_rows_spec. cbn [snd].
      eexists. split_and!; [done | apply NoDup_seq |].
      apply Forall_forall. intros n Hn%elem_of_seq. lia.
    + by exists ns.
Qed.

Lemma ids_unique_and_fresh uuidv4 s :
  (forall n m, uuidv4 n = uuidv4 m -> n = m) ->
  reachable uuidv4 s ->
  NoDup (ev_id <$> variables s) ∧
  uuidv4 (uuid_drawn s) ∉ ev_id <$> variables s.
Proof.
  intros Hinj (ns & -> & Hnd & Hlt)%reachable_ids_drawn. split.
  - apply NoDup_fmap_2; [|done]. intros n m. apply Hinj.
  - intros (n & Heq & Hn)%list_elem_of_fmap. apply Hinj in Heq as <-.
    rewrite Forall_forall in Hlt. specialize (Hlt _ Hn). lia.
Qed.

(** X3. As long as the generator never returns an id twice, the rows of a
    reachable state have pairwise distinct ids, and the id the next row will
    get is none of theirs. *)
Theorem reachable_ids_unique (uuidv4 : nat -> str) (s : EditorState) :
  (forall n m, uuidv4 n = uuidv4 m -> n = m) ->
  reachable uuidv4 s ->
  NoDup (ev_id <$> variables s) ∧
  uuidv4 (uuid_drawn s) ∉ ev_id <$> variables s.
Proof.
  intros Hinj Hs.
  destruct (reachable_ids_drawn uuidv4 s Hs) as (ns & Hids & Hnd & Hlt).
  rewrite Hids. split.
  - apply NoDup_fmap_2; [|done]. intros n m. apply Hinj.
  - rewrite list_elem_of_fmap. intros (n & Heq & Hn).
    apply Hinj in Heq. subst n.
    rewrite Forall_forall in Hlt. specialize (Hlt _ Hn). lia.
Qed.

Lemma lit_inj a b : lit a = lit b -> a = b.
Proof.
  unfold lit. intros H.
  rewrite <- (string_of_list_ascii_of_string a),
          <- (string_of_list_ascii_of_string b).
  f_equal. revert H. generalize (list_ascii_of_string b).
  induction (list_ascii_of_string a) as [|x l IH]; intros [|y l'] H;
    try discriminate; [done|].
  injection H as Hxy Hl. f_equal; [|by apply IH].
  by rewrite <- (ascii_N_embedding x), <- (ascii_N_embedding y), Hxy.
Qed.

Lemma Number_toString_inj n m : Number_toString n = Number_toString m -> n = m.
Proof.
  unfold Number_toString. intros H%lit_inj.
  apply Unsigned.to_uint_inj.
  assert (Some (Nat.to_uint n) = Some (Nat.to_uint m)) as [= ->]; [|done].
  by rewrite <- !NilEmpty.usu, H.
Qed.

Lemma counter_uuid_inj n m : counter_uuid n = counter_uuid m -> n = m.
Proof.
  unfold counter_uuid. intros H%app_inv_head. by apply Number_toString_inj.
Qed.

Lemma reachable_ids_unique_witness :
  NoDup (ev_id <$> variables
           (handle counter_uuid AddRow
              (handle counter_uuid (DeleteRow (counter_uuid 3))
                 (initialState counter_uuid)))).
Proof.
  apply (reachable_ids_unique counter_uuid).
  - apply counter_uuid_inj.
  - apply reachable_step, reachable_step, reachable_init.
Defined.

(** ** Adding and deleting rows *)

Lemma List_filter_all {A} (f : A -> bool) (l : list A) :
  Forall (fun x => f x = true) l -> List.filter f l = l.
Proof.
  induction 1 as [|x l Hx _ IH]; [done|]. cbn. by rewrite Hx, IH.
Qed.

Lemma List_filter_none {A} (f : A -> bool) (l : list A) :
  Forall (fun x => f x = false) l -> List.filter f l = [].
Proof. induction 1 as [|x l Hx _ IH]; [done|]. cbn. by rewrite Hx. Qed.

Lemma List_filter_app {A} (f : A -> bool) (l k : list A) :
  List.filter f (l ++ k) = List.filter f l ++ List.filter f k.
Proof. apply List.filter_app. Qed.

Lemma deleteVariableRow_variables id s :
  variables (deleteVariableRow id s) = filter (fun r => ev_id r ≠ id) (variables s).
Proof.
  unfold deleteVariableRow. cbn. apply List_filter_decide. intros r.
  rewrite negb_true_iff, bool_decide_eq_false. done.
Qed.

(** X1. In a reachable state, with a generator that never repeats an id,
    adding a row and then deleting the row just added gives back the rows as
    they were; the new row is the last one, empty, with the next id. *)
Theorem add_then_delete (uuidv4 : nat -> str) (s : EditorState) :
  (forall n m, uuidv4 n = uuidv4 m -> n = m) ->
  reachable uuidv4 s ->
  variables (addVariableRow uuidv4 s) =
    variables s ++ [mkVar (uuidv4 (uuid_drawn s)) [] []] ∧
  variables (deleteVariableRow (uuidv4 (uuid_drawn s)) (addVariableRow uuidv4 s))
  = variables s.
Proof.
  intros Hinj Hs. split; [done|].
  destruct (ids_unique_and_fresh uuidv4 s Hinj Hs) as [_ Hfresh].
  unfold deleteVariableRow, addVariableRow. cbn.
  rewrite List_filter_app. cbn. rewrite bool_decide_eq_true_2 by done. cbn.
  rewrite app_nil_r. apply List_filter_all, Forall_forall. intros r Hr.
  apply negb_true_iff, bool_decide_eq_false. intros Heq. apply Hfresh.
  apply list_elem_of_fmap. by exists r.
Qed.

Lemma add_then_delete_witness :
  variables (deleteVariableRow (counter_uuid 20)
               (addVariableRow counter_uuid (initialState counter_uuid)))
  = variables (initialState counter_uuid).
Proof.
  apply (add_then_delete counter_uuid (initialState counter_uuid)).
  - apply counter_uuid_inj.
  - apply reachable_init.
Defined.

(** X2. Deleting the row [id] keeps exactly the rows of another id, in their
    order, and nothing else of the state, so an error recorded for [id]
    stays in [rowErrors]; when the ids are pairwise distinct and [id] is one
    of them, one row less is left. *)
Theorem deleteVariableRow_removes (id : str) (s : EditorState) :
  let s' := deleteVariableRow id s in
  (id ∉ ev_id <$> variables s') ∧
  (forall r, r ∈ variables s' <-> r ∈ variables s ∧ ev_id r ≠ id) ∧
  variables s' `sublist_of` variables s ∧
  rowErrors s' = rowErrors s ∧ rawText s' = rawText s ∧
  error s' = error s ∧ status s' = status s ∧
  (NoDup (ev_id <$> variables s) -> id ∈ ev_id <$> variables s ->
   S (length (variables s')) = length (variables s)).
Proof.
  cbn zeta. rewrite deleteVariableRow_variables. split_and!; try done.
  - intros (r & -> & [Hr _]%list_elem_of_filter)%list_elem_of_fmap. done.
  - intros r. rewrite list_elem_of_filter. tauto.
  - apply sublist_filter.
  - induction (variables s) as [|r rows IH]; intros Hnd Hin.
    + by apply elem_of_nil in Hin.
    + rewrite fmap_cons in Hnd, Hin. apply NoDup_cons in Hnd as [Hr Hnd].
      rewrite filter_cons. case_decide as Hid.
      * cbn. f_equal. apply IH; [done|].
        apply elem_of_cons in Hin as [?|?]; [congruence | done].
      * subst id. cbn. f_equal.
        assert (filter (fun r0 => ev_id r0 ≠ ev_id r) rows = rows) as ->;
          [|done].
        clear IH Hin Hnd. induction rows as [|r' rows IH]; [done|].
        rewrite fmap_cons, not_elem_of_cons in Hr. destruct Hr as [Hne Hr].
        rewrite filter_cons_True by congruence. f_equal. by apply IH.
Qed.

Lemma deleteVariableRow_removes_witness :
  S (length (variables (deleteVariableRow (counter_uuid 3)
                          (initialState counter_uuid)))) =
  length (variables (initialState counter_uuid)).
Proof.
  apply (deleteVariableRow_removes (counter_uuid 3) (initialState counter_uuid)).
  - apply (ids_unique_and_fresh counter_uuid);
      [apply counter_uuid_inj | apply reachable_init].
  - vm_compute. do 3 apply list_elem_of_further. apply list_elem_of_here.
Defined.

(** ** Key edits and the output *)

Lemma key_edit_records_error id v s :
  ∃ msg, rowErrors (handleVariableChange id FKey v s) !! id = Some msg ∧
         truthy msg = true.
Proof.
  unfold handleVariableChange.
  destruct (truthy (trim v)); cbn [negb];
    [destruct (KEY_REGEX_test v); cbn [negb]|];
    cbn [rowErrors setRowErrors setVariables];
    eexists; (split; [apply lookup_insert_eq | done]).
Qed.

Lemma List_filter_filter_imp {A} (f g : A -> bool) (l : list A) :
  (forall x, f x = true -> g x = true) ->
  List.filter f (List.filter g l) = List.filter f l.
Proof.
  intros Hfg. induction l as [|x l IH]; [done|]. cbn.
  destruct (g x) eqn:Hg; cbn.
  - by rewrite IH.
  - destruct (f x) eqn:Hf; [|done]. apply Hfg in Hf. congruence.
Qed.

(** X4. Once the key of the row [id] has been edited, to whatever text, the
    output no longer has a line for that row: it is the output of the state
    with the row deleted. *)
Theorem key_edit_drops_row_from_output (id v : str) (s : EditorState) :
  getOutputText (handleVariableChange id FKey v s) =
  getOutputText (deleteVariableRow id (handleVariableChange id FKey v s)).
Proof.
  destruct (key_edit_records_error id v s) as (msg & Hmsg & Ht).
  unfold getOutputText, deleteVariableRow.
  cbn [variables rowErrors setVariables].
  rewrite List_filter_filter_imp; [done|].
  intros r [_ Hr]%andb_true_iff. apply negb_true_iff, bool_decide_eq_false.
  intros Heq. unfold no_row_error in Hr. rewrite Heq, Hmsg, Ht in Hr. done.
Qed.

(** X12. Editing a row id that no row has leaves the rows as they are, yet
    an edit of the key field still records an error under that id. *)
Theorem edit_of_absent_row (id v : str) (field : Field) (s : EditorState) :
  id ∉ ev_id <$> variables s ->
  variables (handleVariableChange id field v s) = variables s ∧
  ∃ msg, rowErrors (handleVariableChange id FKey v s) !! id = Some msg ∧
         msg ≠ [].
Proof.
  intros Hid. split.
  - rewrite handleVariableChange_variables.
    rewrite <- (list_fmap_id (variables s)) at 2.
    apply list_fmap_ext. intros i r Hr. cbn.
    rewrite bool_decide_eq_false_2; [done|]. intros <-. apply Hid.
    apply list_elem_of_fmap. exists r. split; [done|].
    by apply list_elem_of_lookup_2 in Hr.
  - destruct (key_edit_records_error id v s) as (msg & Hmsg & Ht).
    exists msg. split; [done|]. by apply truthy_true.
Qed.

Lemma edit_of_absent_row_witness :
  variables (handleVariableChange (lit "r2") FKey (lit "B") one_row_state)
  = variables one_row_state.
Proof.
  apply (edit_of_absent_row (lit "r2") (lit "B") FKey one_row_state).
  vm_compute. intros H. apply list_elem_of_singleton in H. discriminate H.
Defined.

(** ** The copy action *)

Lemma join_nonempty sep x l : x ≠ [] -> join sep (x :: l) ≠ [].
Proof. intros Hx. destruct l; cbn; [done|]. by destruct x. Qed.

Lemma getOutputText_filter s :
  getOutputText s =
  join newline
    ((fun r => ev_key r ++ lit "=" ++ ev_value r) <$>
     List.filter (in_output s) (variables s)).
Proof. reflexivity. Qed.

(** X6. The copy action writes the output text when some row passes the
    filter of the output, and that text is not empty; when no row passes, it
    only shows the notice "Nothing valid to copy."; it never writes an empty
    text. *)
Theorem copyToClipboard_guard (s : EditorState) :
  (Exists (fun r => in_output s r = true) (variables s) ->
   copyToClipboard s = WriteText (getOutputText s) ∧ getOutputText s ≠ []) ∧
  (Forall (fun r => in_output s r = false) (variables s) ->
   copyToClipboard s = Alert (lit "Nothing valid to copy.")) ∧
  (forall out, copyToClipboard s = WriteText out ->
               out = getOutputText s ∧ out ≠ []).
Proof.
  split_and!.
  - intros Hex.
    assert (getOutputText s ≠ []) as Hne.
    { rewrite getOutputText_filter.
      destruct (List.filter (in_output s) (variables s)) as [|r rs] eqn:Hf.
      - apply Exists_exists in Hex as (r & Hr & Hin).
        assert (r ∈ List.filter (in_output s) (variables s)) as Hr'.
        { apply list_elem_of_In, filter_In.
          by rewrite <- list_elem_of_In. }
        rewrite Hf in Hr'. by apply elem_of_nil in Hr'.
      - rewrite fmap_cons. apply join_nonempty.
        intros H. apply app_eq_nil in H as [_ H]. discriminate H. }
    split; [|done]. unfold copyToClipboard. cbv zeta.
    apply truthy_true in Hne. by rewrite Hne.
  - intros Hall. unfold copyToClipboard. cbv zeta.
    rewrite getOutputText_filter, List_filter_none by done. done.
  - intros out. unfold copyToClipboard. cbv zeta.
    destruct (truthy (getOutputText s)) eqn:Ht; cbn [negb]; [|discriminate].
    intros [= <-]. split; [done|]. by apply truthy_true.
Qed.

Lemma copyToClipboard_guard_witness :
  copyToClipboard (initialState counter_uuid) =
    Alert (lit "Nothing valid to copy.") ∧
  copyToClipboard one_row_state = WriteText (lit "A=1").
Proof.
  split.
  - apply (copyToClipboard_guard (initialState counter_uuid)).
    vm_compute. repeat constructor.
  - apply (copyToClipboard_guard one_row_state).
    apply Exists_cons_hd. reflexivity.
Defined.

(** ** What a parse depends on *)

Lemma fields_of_empty_rows rows :
  Forall (fun r => ev_key r = [] ∧ ev_value r = []) rows ->
  row_fields <$> rows = replicate (length rows) ([], []).
Proof.
  induction 1 as [|r rows [Hk Hv] _ IH]; [done|].
  cbn. unfold row_fields at 1. by rewrite Hk, Hv, IH.
Qed.

(** The keys and values of the rows built from the entries. *)
Lemma build_rows_fields uuidv4 entries n :
  row_fields <$> (build_rows uuidv4 entries n).1 =
  entries ++ replicate (INITIAL_ROW_COUNT - length entries) ([], []).
Proof.
  rewrite <- (take_drop (length entries) (build_rows uuidv4 entries n).1)
    at 1.
  rewrite fmap_app, build_rows_entries.
  rewrite fields_of_empty_rows by apply build_rows_padding.
  rewrite length_drop, build_rows_length. do 2 f_equal. lia.
Qed.

Lemma parseAndPopulate_fields uuidv4 s :
  row_fields <$> variables (parseAndPopulate uuidv4 s) =
  entries_of (rawText s)
  ++ replicate (INITIAL_ROW_COUNT - length (entries_of (rawText s))) ([], []).
Proof. rewrite parseAndPopulate_variables. apply build_rows_fields. Qed.

Lemma keeps_text_rawText uuidv4 e s :
  keeps_text e = true -> rawText (handle uuidv4 e s) = rawText s.
Proof.
  destruct e as [v|id field v| |id| | | |]; cbn [keeps_text handle];
    try discriminate; intros _; try done.
  - unfold handleVariableChange. destruct field; [|done].
    by repeat case_match.
  - unfold effect_reparse. destruct (truthy (rawText s)); [|done].
    apply parseAndPopulate_frame.
Qed.

(** X9. While the pasted text is not empty, the re-parse that follows a row
    edit, an added or deleted row, a status timeout or another re-parse
    yields the keys and values, the error banner and the status that a
    re-parse of the state before that event yields: the rows are rebuilt
    from the text alone, and what was edited in them is gone. The row errors
    are not reset by the re-parse. *)
Theorem reparse_forgets_row_edits (uuidv4 : nat -> str) (e : Event)
    (s : EditorState) :
  keeps_text e = true ->
  rawText s ≠ [] ->
  let a := effect_reparse uuidv4 (handle uuidv4 e s) in
  let b := effect_reparse uuidv4 s in
  row_fields <$> variables a = row_fields <$> variables b ∧
  row_fields <$> variables a =
    entries_of (rawText s)
    ++ replicate (20 - length (entries_of (rawText s))) ([], []) ∧
  error a = error b ∧ status a = status b ∧ rawText a = rawText s ∧
  rowErrors a = rowErrors (handle uuidv4 e s).
Proof.
  intros He Hraw. cbn zeta. unfold effect_reparse.
  rewrite (keeps_text_rawText uuidv4 e s He).
  apply truthy_true in Hraw. rewrite Hraw.
  rewrite !parseAndPopulate_fields, !parseAndPopulate_error,
    !parseAndPopulate_status, (keeps_text_rawText uuidv4 e s He).
  destruct (parseAndPopulate_frame uuidv4 (handle uuidv4 e s)) as [Hr He'].
  rewrite Hr, He', (keeps_text_rawText uuidv4 e s He).
  by split_and!.
Qed.

Lemma reparse_forgets_row_edits_witness :
  row_fields <$>
    variables
      (effect_reparse counter_uuid
         (handle counter_uuid
            (VariableChange (counter_uuid 20) FValue (lit "edited"))
            (effect_reparse counter_uuid (pasted text_a1_a2))))
  = (lit "A", lit "2") :: replicate 19 ([], []).
Proof.
  pose proof (reparse_forgets_row_edits counter_uuid
                (VariableChange (counter_uuid 20) FValue (lit "edited"))
                (effect_reparse counter_uuid (pasted text_a1_a2))) as H.
  destruct H as (_ & H & _); [reflexivity | discriminate |].
  rewrite H. vm_compute. reflexivity.
Defined.

(** ** Lines that are skipped *)

Lemma blank_or_comment_nothing index line :
  blank_or_comment line = true ->
  line_items index line = [] ∧ line_warning index line = None.
Proof.
  unfold blank_or_comment, line_items, line_pair, line_warning. cbv zeta.
  intros H.
  assert (truthy (trim line) && negb (startsWith (lit "#") (trim line))
          = false) as ->; [|done].
  destruct (truthy (trim line)); [|done].
  by destruct (startsWith (lit "#") (trim line)).
Qed.

Lemma line_is_one_of_three index line :
  length (line_items index line)
  + length (option_list (line_warning index line))
  + (if blank_or_comment line then 1 else 0) = 1.
Proof.
  unfold blank_or_comment, line_items, line_pair, line_warning. cbv zeta.
  destruct (truthy (trim line)); [|done].
  destruct (startsWith (lit "#") (trim line)); [done|]. cbn [negb andb orb].
  destruct (indexOf 61%N (trim line)) as [e|]; [|done].
  by destruct (truthy (trim (take e (trim line)))).
Qed.

(** X8. Every line of the input is accounted for exactly once: it is
    skipped as blank or comment, or it gives one parsed item, or it gives
    one warning. *)
Theorem every_line_accounted (raw : str) :
  length (parsedItems raw) + length (parseWarningMessages raw)
  + length (List.filter blank_or_comment (split 10%N raw))
  = length (split 10%N raw).
Proof.
  rewrite parsedItems_spec, parseWarningMessages_spec.
  generalize (split 10%N raw) 0. intros lines.
  induction lines as [|line lines IH]; intros index; [done|].
  cbn [items_from warnings_from List.filter]. rewrite !length_app.
  pose proof (line_is_one_of_three index line) as H.
  specialize (IH (S index)).
  destruct (blank_or_comment line); cbn [length]; lia.
Qed.

(** X7. A text made of blank lines and comments only is parsed without a
    warning into 20 empty rows: the error banner is cleared and the status
    is the success message. *)
Theorem parse_of_blank_text (uuidv4 : nat -> str) (s : EditorState) :
  Forall (fun line => blank_or_comment line = true) (split 10%N (rawText s)) ->
  let s' := parseAndPopulate uuidv4 s in
  row_fields <$> variables s' = replicate 20 ([], []) ∧
  error s' = None ∧ status s' = Some (lit "Parsed successfully!").
Proof.
  intros Hall. cbn zeta.
  assert (parsedItems (rawText s) = []) as Hitems.
  { rewrite parsedItems_spec. revert Hall.
    generalize (split 10%N (rawText s)) 0. intros lines index Hall.
    revert index. induction Hall as [|line lines Hl _ IH]; intros index;
      [done|].
    cbn. rewrite IH.
    by destruct (blank_or_comment_nothing index line Hl) as [-> _]. }
  assert (parseWarningMessages (rawText s) = []) as Hwarn.
  { rewrite parseWarningMessages_spec. revert Hall.
    generalize (split 10%N (rawText s)) 0. intros lines index Hall.
    revert index. induction Hall as [|line lines Hl _ IH]; intros index;
      [done|].
    cbn. rewrite IH.
    by destruct (blank_or_comment_nothing index line Hl) as [_ ->]. }
  rewrite parseAndPopulate_fields, parseAndPopulate_error,
    parseAndPopulate_status, Hwarn.
  unfold entries_of. rewrite Hitems. done.
Qed.

Lemma parse_of_blank_text_witness :
  row_fields <$>
    variables (parseAndPopulate counter_uuid
                 (pasted (lit "   " ++ newline ++ lit "# a note")))
  = replicate 20 ([], []).
Proof.
  apply (parse_of_blank_text counter_uuid
           (pasted (lit "   " ++ newline ++ lit "# a note"))).
  vm_compute. repeat constructor.
Defined.

(** ** More on trimming *)

Lemma trimStart_ws_app x y :
  Forall (fun c => isWhiteSpace c = true) x -> trimStart (x ++ y) = trimStart y.
Proof. induction 1 as [|c x Hc _ IH]; [done|]. cbn. by rewrite Hc. Qed.

Lemma trimEnd_app_ws y x :
  Forall (fun c => isWhiteSpace c = true) x -> trimEnd (y ++ x) = trimEnd y.
Proof.
  intros Hx. unfold trimEnd. rewrite reverse_app, trimStart_ws_app; [done|].
  by apply Forall_reverse.
Qed.

Lemma trimStart_decomp s :
  ∃ ws, s = ws ++ trimStart s ∧ Forall (fun c => isWhiteSpace c = true) ws.
Proof.
  induction s as [|c s (ws & Hs & Hws)]; [by exists []|]. cbn.
  destruct (isWhiteSpace c) eqn:Hc.
  - exists (c :: ws). split; [by rewrite Hs at 1 | by constructor].
  - by exists [].
Qed.

Lemma trimStart_head s c r : trimStart s = c :: r -> isWhiteSpace c = false.
Proof.
  induction s as [|a s IH]; [done|]. cbn.
  destruct (isWhiteSpace a) eqn:Ha; [done|]. by intros [= <- _].
Qed.

Lemma trimEnd_decomp s :
  ∃ ws, s = trimEnd s ++ ws ∧ Forall (fun c => isWhiteSpace c = true) ws.
Proof.
  destruct (trimStart_decomp (reverse s)) as (ws & Hs & Hws).
  exists (reverse ws). split; [|by apply Forall_reverse].
  unfold trimEnd. rewrite <- reverse_app, <- Hs. by rewrite reverse_involutive.
Qed.

Lemma trimEnd_last s x c : trimEnd s = x ++ [c] -> isWhiteSpace c = false.
Proof.
  unfold trimEnd. intros H.
  apply (f_equal reverse) in H.
  rewrite reverse_involutive, reverse_app in H. cbn in H.
  by apply trimStart_head in H.
Qed.

Lemma trimEnd_snoc x c : isWhiteSpace c = false -> trimEnd (x ++ [c]) = x ++ [c].
Proof. intros Hc. by rewrite (trimEnd_app_cons x c []). Qed.

Lemma trim_idemp s : trim (trim s) = trim s.
Proof.
  unfold trim.
  assert (trimEnd (trimStart (trimEnd s)) = trimStart (trimEnd s)) as ->;
    [|apply trimStart_idemp].
  destruct (trimStart_decomp (trimEnd s)) as (ws & Ha & _).
  destruct (trimStart (trimEnd s)) as [|d b] using rev_ind; [done|].
  clear IHb. rewrite app_assoc in Ha. apply trimEnd_last in Ha.
  by apply trimEnd_snoc.
Qed.

Lemma elem_of_trimStart c s : c ∈ trimStart s -> c ∈ s.
Proof.
  destruct (trimStart_decomp s) as (ws & Hs & _). intros Hc.
  rewrite Hs. apply elem_of_app. by right.
Qed.

Lemma elem_of_trimEnd c s : c ∈ trimEnd s -> c ∈ s.
Proof.
  destruct (trimEnd_decomp s) as (ws & Hs & _). intros Hc.
  rewrite Hs. apply elem_of_app. by left.
Qed.

Lemma elem_of_trim c s : c ∈ trim s -> c ∈ s.
Proof. unfold trim. by intros ?%elem_of_trimStart%elem_of_trimEnd. Qed.

Lemma startsWith_hash_cons c r :
  startsWith (lit "#") (c :: r) = (35 =? c)%N.
Proof.
  change (startsWith (lit "#") (c :: r)) with ((35 =? c)%N && true).
  apply andb_true_r.
Qed.

(** A trimmed, non-empty string starts with a character that is not
    whitespace. *)
Lemma trimmed_head K :
  K ≠ [] -> trim K = K -> ∃ c r, K = c :: r ∧ isWhiteSpace c = false.
Proof.
  intros HK Ht. destruct K as [|c r]; [done|]. exists c, r. split; [done|].
  unfold trim in Ht. by apply trimStart_head in Ht.
Qed.

Lemma indexOf_Some c s e :
  indexOf c s = Some e -> (c ∉ take e s) ∧ s !! e = Some c.
Proof.
  revert e. induction s as [|a s IH]; intros e; [done|]. cbn.
  destruct (a =? c)%N eqn:Hac.
  - intros [= <-]. apply N.eqb_eq in Hac as ->. split; [|done].
    cbn. apply not_elem_of_nil.
  - destruct (indexOf c s) as [e'|]; [|done]. intros [= <-].
    destruct (IH e' eq_refl) as [Hnot Hlook]. split; [|done].
    cbn. apply not_elem_of_cons. split; [|done].
    apply N.eqb_neq in Hac. congruence.
Qed.

Lemma split_no_sep sep s : Forall (fun l => sep ∉ l) (split sep s).
Proof.
  induction s as [|c s IH]; cbn.
  - repeat constructor. apply not_elem_of_nil.
  - destruct (c =? sep)%N eqn:Hc.
    + constructor; [apply not_elem_of_nil | done].
    + destruct (split sep s) as [|l ls]; apply N.eqb_neq in Hc.
      * repeat constructor. by intros ->%list_elem_of_singleton.
      * apply Forall_cons in IH as [Hl Hls]. constructor; [|done].
        apply not_elem_of_cons. split; [congruence | done].
Qed.

(** ** The keys the parser accepts *)

Lemma not_space_61 : isWhiteSpace 61%N = false.
Proof. reflexivity. Qed.

(** The pair of a line [<spaces>K<spaces>=V]. *)
Lemma line_pair_spaced ws1 K ws2 V :
  Forall (fun c => isWhiteSpace c = true) ws1 ->
  Forall (fun c => isWhiteSpace c = true) ws2 ->
  parsable_key K ->
  line_pair (ws1 ++ K ++ ws2 ++ lit "=" ++ V) = Some (K, trim V).
Proof.
  intros Hws1 Hws2 (HK & Htrim & Heq & Hhash).
  set (rest := 61%N :: trimEnd V).
  assert (Ht : trim (ws1 ++ K ++ ws2 ++ lit "=" ++ V) = (K ++ ws2) ++ rest).
  { destruct (trimmed_head K HK Htrim) as (c & r & -> & Hc).
    unfold trim. change (lit "=" ++ V) with (61%N :: V).
    rewrite !app_assoc, trimEnd_app_cons by apply not_space_61.
    rewrite <- !app_assoc, trimStart_ws_app by done.
    by apply trimStart_cons. }
  assert (Htruthy : truthy ((K ++ ws2) ++ rest) = true).
  { by destruct K. }
  assert (Hsw : startsWith (lit "#") ((K ++ ws2) ++ rest) = false).
  { destruct K as [|c r]; [done|].
    rewrite startsWith_hash_cons in Hhash.
    change (startsWith (lit "#") (((c :: r) ++ ws2) ++ rest))
      with ((35 =? c)%N && true).
    by rewrite Hhash. }
  assert (61%N ∉ K ++ ws2) as Heq'.
  { intros [?|Hin]%elem_of_app; [done|].
    rewrite Forall_forall in Hws2. by specialize (Hws2 _ Hin). }
  assert (trim (K ++ ws2) = K) as Hk.
  { unfold trim. rewrite trimEnd_app_ws by done. exact Htrim. }
  unfold line_pair. cbv zeta. rewrite Ht, Htruthy, Hsw. cbn [andb negb].
  unfold rest at 1. rewrite indexOf_app_cons by done.
  rewrite take_app_length, Hk.
  apply truthy_true in HK as ->.
  replace (drop (length (K ++ ws2) + 1) ((K ++ ws2) ++ rest))
    with (trimEnd V).
  - by rewrite trim_trimEnd.
  - rewrite Nat.add_1_r. unfold rest.
    change ((K ++ ws2) ++ 61%N :: trimEnd V)
      with ((K ++ ws2) ++ [61%N] ++ trimEnd V).
    rewrite app_assoc. symmetry. apply drop_app_length'.
    rewrite !length_app. cbn [length]. lia.
Qed.

(** X10. The parser does not apply [KEY_REGEX]: a line made of a key that
    is not empty, has no whitespace at its ends, no '=' and no leading '#',
    with any whitespace around the key, then '=' and any text, gives a
    parsed item with that key, the trimmed text as value and the 1-based
    number of the line, and gives no warning. *)
Theorem parser_accepts_any_key (raw : str) (i : nat) (ws1 K ws2 V : str) :
  split 10%N raw !! i = Some (ws1 ++ K ++ ws2 ++ lit "=" ++ V) ->
  Forall (fun c => isWhiteSpace c = true) ws1 ->
  Forall (fun c => isWhiteSpace c = true) ws2 ->
  parsable_key K ->
  mkItem K (trim V) (i + 1) ∈ parsedItems raw ∧
  line_warning i (ws1 ++ K ++ ws2 ++ lit "=" ++ V) = None.
Proof.
  intros Hi Hws1 Hws2 HK.
  pose proof (line_pair_spaced ws1 K ws2 V Hws1 Hws2 HK) as Hp. split.
  - apply elem_of_parsedItems.
    exists i, (ws1 ++ K ++ ws2 ++ lit "=" ++ V). by split_and!.
  - revert Hp. unfold line_pair, line_warning. cbv zeta.
    destruct (truthy _ && negb _); [|done].
    destruct (indexOf _ _) as [e|]; [|done].
    by destruct (truthy (trim (take e _))).
Qed.

Lemma parser_accepts_any_key_witness :
  mkItem (lit "my-key.1") (lit "a = b") 1 ∈
    parsedItems (lit "  my-key.1  =  a = b ") ∧
  KEY_REGEX_test (lit "my-key.1") = false.
Proof.
  split; [|reflexivity].
  apply (parser_accepts_any_key (lit "  my-key.1  =  a = b ") 0
           (lit "  ") (lit "my-key.1") (lit "  ") (lit "  a = b ")).
  - reflexivity.
  - repeat constructor.
  - repeat constructor.
  - unfold parsable_key. split_and!; [discriminate | reflexivity | | reflexivity].
    vm_compute. intros H.
    repeat (apply elem_of_cons in H as [H|H]; [discriminate H|]).
    by apply elem_of_nil in H.
Defined.

Lemma elem_of_take_1 {A} (x : A) n l : x ∈ take n l -> x ∈ l.
Proof. intros H. rewrite <- (take_drop n l). apply elem_of_app. by left. Qed.

Lemma elem_of_drop_1 {A} (x : A) n l : x ∈ drop n l -> x ∈ l.
Proof. intros H. rewrite <- (take_drop n l). apply elem_of_app. by right. Qed.

Lemma trim_cons_head c x :
  isWhiteSpace c = false -> trim (c :: x) = c :: trimEnd x.
Proof.
  intros Hc. unfold trim.
  pose proof (trimEnd_app_cons [] c x Hc) as H. cbn [app] in H. rewrite H.
  by apply trimStart_cons.
Qed.

(** The shape of the pair of a line. *)
Lemma line_pair_shape line k v :
  10%N ∉ line -> line_pair line = Some (k, v) ->
  parsable_key k ∧ trim v = v ∧ (10%N ∉ k) ∧ (10%N ∉ v).
Proof.
  intros Hnl. unfold line_pair. cbv zeta.
  destruct (truthy (trim line)) eqn:Ht; [|done].
  destruct (startsWith (lit "#") (trim line)) eqn:Hs; [done|].
  cbn [negb andb].
  destruct (indexOf 61%N (trim line)) as [e|] eqn:He; [|done].
  destruct (truthy (trim (take e (trim line)))) eqn:Hk; [|done].
  intros [= <- <-]. apply indexOf_Some in He as [He _].
  unfold parsable_key. split_and!.
  - by apply truthy_true.
  - apply trim_idemp.
  - by intros ?%elem_of_trim.
  - destruct (trim line) as [|c r] eqn:Hline; [done|].
    assert (isWhiteSpace c = false) as Hc.
    { unfold trim in Hline. by apply trimStart_head in Hline. }
    destruct e as [|e]; [done|]. cbn [take].
    rewrite trim_cons_head by done.
    by rewrite startsWith_hash_cons in *.
  - apply trim_idemp.
  - by intros ?%elem_of_trim%elem_of_take_1%elem_of_trim.
  - by intros ?%elem_of_trim%elem_of_drop_1%elem_of_trim.
Qed.

(** X5. Every item the parser accumulates has a key that is not empty,
    has no whitespace at its ends, no '=' and no leading '#', and a value
    without whitespace at its ends; neither holds a newline, and the line
    number is the 1-based number of a line of the input. *)
Theorem parsed_items_shape (raw : str) :
  Forall (fun it =>
            parsable_key (pi_key it) ∧ trim (pi_value it) = pi_value it ∧
            (10%N ∉ pi_key it) ∧ (10%N ∉ pi_value it) ∧
            1 <= pi_line it <= length (split 10%N raw))
    (parsedItems raw).
Proof.
  apply Forall_forall. intros it (i & line & Hi & Hp & Hl)%elem_of_parsedItems.
  assert (10%N ∉ line) as Hnl.
  { pose proof (split_no_sep 10%N raw) as H. rewrite Forall_forall in H.
    apply H. by apply list_elem_of_lookup_2 in Hi. }
  destruct (line_pair_shape line _ _ Hnl Hp) as (? & ? & ? & ?).
  apply lookup_lt_Some in Hi. split_and!; try done; lia.
Qed.

(** ** Copying the parsed rows and pasting them back *)

Lemma split_no_sep_id sep x : sep ∉ x -> split sep x = [x].
Proof.
  induction x as [|c x IH]; [done|]. intros [Hc Hx]%not_elem_of_cons.
  cbn. apply not_eq_sym, N.eqb_neq in Hc. rewrite Hc, IH by done. done.
Qed.

Lemma split_app_sep sep x y :
  sep ∉ x -> split sep (x ++ sep :: y) = x :: split sep y.
Proof.
  induction x as [|c x IH]; cbn.
  - by rewrite N.eqb_refl.
  - intros [Hc Hx]%not_elem_of_cons.
    apply not_eq_sym, N.eqb_neq in Hc. rewrite Hc, IH by done. done.
Qed.

(** Splitting what [join] made of newline-free lines gives the lines. *)
Lemma split_join ls :
  ls ≠ [] -> Forall (fun l => 10%N ∉ l) ls -> split 10%N (join newline ls) = ls.
Proof.
  intros Hne Hall. induction Hall as [|x ls Hx Hall IH]; [done|].
  destruct ls as [|y ls].
  - cbn. by apply split_no_sep_id.
  - change (join newline (x :: y :: ls))
      with (x ++ 10%N :: join newline (y :: ls)).
    rewrite split_app_sep by done. f_equal. by apply IH.
Qed.

(** The text [<key>=<value>] of a pair. *)
Lemma line_pair_of_output_line k v :
  parsable_key k -> trim v = v -> line_pair (k ++ lit "=" ++ v) = Some (k, v).
Proof.
  intros Hk Hv.
  pose proof (line_pair_spaced [] k [] v (Forall_nil_2 _) (Forall_nil_2 _) Hk)
    as H.
  cbn [app] in H. by rewrite Hv in H.
Qed.

Lemma entries_of_shape raw :
  Forall (fun e => parsable_key e.1 ∧ trim e.2 = e.2 ∧
                   (10%N ∉ e.1) ∧ (10%N ∉ e.2))
    (entries_of raw).
Proof.
  apply Forall_forall.
  intros [k v] (i & line & Hi & Hp & _)%elem_of_entries_of_lines.
  apply (line_pair_shape line); [|done].
  pose proof (split_no_sep 10%N raw) as H. rewrite Forall_forall in H.
  apply H. by apply list_elem_of_lookup_2 in Hi.
Qed.

(** Parsing the lines [<key>=<value>] of pairs with distinct, parsable keys
    and trimmed, newline-free values gives these pairs. *)
Lemma entries_of_output_lines (es : list (str * str)) :
  NoDup es.*1 ->
  Forall (fun e => parsable_key e.1 ∧ trim e.2 = e.2 ∧
                   (10%N ∉ e.1) ∧ (10%N ∉ e.2)) es ->
  entries_of (join newline ((fun e => e.1 ++ lit "=" ++ e.2) <$> es)) ≡ₚ es.
Proof.
  intros Hnd Hshape. destruct (decide (es = [])) as [->|Hne]; [done|].
  set (fmt := fun e : str * str => e.1 ++ lit "=" ++ e.2).
  assert (Hlines : split 10%N (join newline (fmt <$> es)) = fmt <$> es).
  { apply split_join; [by destruct es|].
    apply Forall_fmap. eapply Forall_impl; [done|].
    intros [k v] (_ & _ & Hk & Hv). unfold fmt. cbn.
    intros [?|[Heq|?]%elem_of_cons]%elem_of_app; done. }
  assert (Hpair : forall i e, es !! i = Some e ->
                              line_pair (fmt e) = Some e).
  { intros i [k v] Hi. rewrite Forall_lookup in Hshape.
    destruct (Hshape i _ Hi) as (Hk & Hv & _).
    by apply line_pair_of_output_line. }
  apply NoDup_Permutation.
  - eapply NoDup_fmap_1, entries_of_NoDup.
  - by eapply NoDup_fmap_1.
  - intros [k v]. rewrite elem_of_entries_of_lines, Hlines. split.
    + intros (i & line & Hi & Hp & _).
      rewrite list_lookup_fmap in Hi.
      destruct (es !! i) as [e|] eqn:He; [|done]. injection Hi as <-.
      rewrite (Hpair i e He) in Hp. injection Hp as ->.
      by apply list_elem_of_lookup_2 in He.
    + intros [i Hi]%list_elem_of_lookup. exists i, (fmt (k, v)).
      split_and!.
      * by rewrite list_lookup_fmap, Hi.
      * by apply (Hpair i).
      * intros j line' v' Hij Hj Hp. rewrite list_lookup_fmap in Hj.
        destruct (es !! j) as [e'|] eqn:He'; [|done]. injection Hj as <-.
        rewrite (Hpair j e' He') in Hp. injection Hp as ->.
        assert (j = i); [|lia].
        apply (NoDup_lookup es.*1 j i k Hnd);
          rewrite list_lookup_fmap; [by rewrite He' | by rewrite Hi].
Qed.

(** The output of a freshly parsed state whose new rows have no recorded
    error: the lines of the entries. *)
Lemma getOutputText_after_parse uuidv4 s :
  Forall (fun r => no_row_error (rowErrors s) (ev_id r) = true)
    (variables (parseAndPopulate uuidv4 s)) ->
  getOutputText (parseAndPopulate uuidv4 s) =
  join newline ((fun e => e.1 ++ lit "=" ++ e.2) <$> entries_of (rawText s)).
Proof.
  intros Herr. rewrite getOutputText_filter. f_equal.
  set (s1 := parseAndPopulate uuidv4 s) in *.
  set (es := entries_of (rawText s)).
  assert (Hfields : row_fields <$> take (length es) (variables s1) = es).
  { unfold s1. rewrite parseAndPopulate_variables. apply build_rows_entries. }
  assert (Hpad : Forall (fun r => ev_key r = [] ∧ ev_value r = [])
                   (drop (length es) (variables s1))).
  { unfold s1. rewrite parseAndPopulate_variables. apply build_rows_padding. }
  rewrite <- (take_drop (length es) (variables s1)) at 1.
  rewrite List_filter_app, (List_filter_none _ (drop _ _)), app_nil_r.
  - rewrite List_filter_all.
    + rewrite <- Hfields at 2. rewrite <- list_fmap_compose. done.
    + apply Forall_forall. intros r Hr. unfold in_output.
      apply andb_true_iff. split.
      * assert (row_fields r ∈ es) as Hin.
        { rewrite <- Hfields. apply list_elem_of_fmap. by exists r. }
        pose proof (entries_of_shape (rawText s)) as Hshape.
        rewrite Forall_forall in Hshape.
        destruct (Hshape _ Hin) as ((Hne & Htrim & _) & _).
        unfold row_fields in Hne, Htrim. cbn [fst] in Hne, Htrim.
        rewrite Htrim. by apply truthy_true.
      * unfold s1 at 1. rewrite (proj2 (parseAndPopulate_frame uuidv4 s)).
        rewrite Forall_forall in Herr. apply Herr.
        by apply elem_of_take_1 in Hr.
  - eapply Forall_impl; [exact Hpad|]. intros r [Hk _]. unfold in_output.
    by rewrite Hk.
Qed.

(** X11. When the rows of a freshly parsed state carry no recorded error,
    the output text of that state parses to the same key/value pairs as the
    text it came from, up to their order; so pasting the copied text back
    gives rows with the same keys and values, up to order. *)
Theorem output_reparses_to_same_entries (uuidv4 : nat -> str)
    (s : EditorState) :
  let s1 := parseAndPopulate uuidv4 s in
  Forall (fun r => no_row_error (rowErrors s) (ev_id r) = true)
    (variables s1) ->
  entries_of (getOutputText s1) ≡ₚ entries_of (rawText s) ∧
  row_fields <$>
    variables (parseAndPopulate uuidv4 (handleTextChange (getOutputText s1) s1))
  ≡ₚ row_fields <$> variables s1.
Proof.
  cbn zeta. intros Herr.
  assert (entries_of (getOutputText (parseAndPopulate uuidv4 s))
          ≡ₚ entries_of (rawText s)) as Hperm.
  { rewrite getOutputText_after_parse by done.
    apply entries_of_output_lines;
      [apply entries_of_NoDup | apply entries_of_shape]. }
  split; [done|].
  rewrite !parseAndPopulate_fields. cbn [rawText handleTextChange setRawText].
  rewrite (Permutation_length Hperm). by apply Permutation_app.
Qed.

Lemma output_reparses_to_same_entries_witness :
  entries_of (getOutputText (parseAndPopulate counter_uuid (pasted text_spaced)))
  ≡ₚ entries_of text_spaced.
Proof.
  apply (output_reparses_to_same_entries counter_uuid (pasted text_spaced)).
  vm_compute. repeat constructor.
Defined.
